(** * Amortisation and valuation engine of the loan-reporting platform

    A shallow embedding of the schedule builder of [loanEngine.js], of
    the risk classifier, the curve interpolators, the rate-of-return
    solver, [valueLoan] and [computePortfolioValuation] of
    [valuationEngine.js], and of the ownership helper of [roiEngine.js],
    followed by the properties of the specification, each one proved or
    refuted on the embedding, and by further properties of the code.

    Numbers.  JavaScript numbers are IEEE-754 doubles.  They are modelled
    by the type [num]: a rational, one of the two infinities, or NaN.
    Arithmetic on finite values is exact: there is no rounding to 53
    bits, no overflow to an infinity and no negative zero.  Division by
    zero, the propagation of NaN, comparisons with NaN, [Math.min],
    [Math.max], [toFixed(2)] and the truthiness tests of the source are
    modelled as JavaScript defines them.  [Math.pow] is exact for the
    integral exponents of the payment and discount formulas; for the one
    fractional exponent of the engine, [1 / 12], it is a parameter
    [root12] of the valuation code.

    Dates.  A [Date] is only ever used through its year and month, so a
    date is the number of its month, and a month key ["YYYY-MM"] is the
    pair of its two numbers.  The date of the valuation, [new Date()],
    is a field of the context.

    Records.  Loans, borrowers, curves and assumptions are records with
    the fields the engine reads; [termYears] and [graceYears] are whole
    numbers of years and the months of a deferral a whole number.  An
    object used as a dictionary is an association list.  The module
    state (system profile, curve table, school table, borrowers,
    overrides) is a context record passed to the functions that read
    it.  The fee, ownership-date and cumulative columns of a schedule
    row and the per-month display tables of a valuation are not
    modelled: nothing in the engine reads them back.

    Around the engine.  The functions that read a schedule
    ([getCurrentScheduleIndex], [getCanonicalCurrentAmortRow],
    [getCurrentLoanBalance], [attachSchedules]), the borrower store,
    the valuation overrides and the return series of [roiEngine.js] are
    embedded after the engine, each store as a value passed in and
    returned.  Strings are ASCII.  The dates of a return series are
    months, like the dates of the rows the series is computed from.
    What these functions write to the console or to the storage of the
    browser is left out. *)

From Stdlib Require Import ZArith QArith Qround Qabs Qpower Lia Lqa.
From Stdlib Require Import List Bool String Ascii DecimalString.
Import ListNotations.

(* ================================================================== *)
(** ** JavaScript numbers *)
(* ================================================================== *)

Module JS.

Local Open Scope Q_scope.

Inductive num : Type :=
| Fin (q : Q)
| PInf
| NInf
| NaN.

(** Results are kept in lowest terms, so that equal values computed in
    the same way are equal terms. *)
Definition fin (q : Q) : num := Fin (Qred q).

Definition zero : num := Fin 0.
Definition one : num := Fin 1.

Definition qsign (q : Q) : comparison := (Qnum q ?= 0)%Z.

Definition neg (a : num) : num :=
  match a with
  | Fin q => fin (- q)
  | PInf => NInf
  | NInf => PInf
  | NaN => NaN
  end.

Definition add (a b : num) : num :=
  match a, b with
  | NaN, _ | _, NaN => NaN
  | Fin x, Fin y => fin (x + y)
  | PInf, NInf | NInf, PInf => NaN
  | PInf, _ | _, PInf => PInf
  | NInf, _ | _, NInf => NInf
  end.

Definition sub (a b : num) : num := add a (neg b).

(** An infinity with the sign of a comparison against zero; [Eq] (an
    infinity times zero) is NaN. *)
Definition inf_of_sign (c : comparison) : num :=
  match c with
  | Gt => PInf
  | Lt => NInf
  | Eq => NaN
  end.

Definition sign_of (a : num) : comparison :=
  match a with
  | Fin q => qsign q
  | PInf => Gt
  | NInf => Lt
  | NaN => Eq
  end.

Definition sign_mul (c d : comparison) : comparison :=
  match c, d with
  | Eq, _ | _, Eq => Eq
  | Gt, Gt | Lt, Lt => Gt
  | Gt, Lt | Lt, Gt => Lt
  end.

Definition mul (a b : num) : num :=
  match a, b with
  | NaN, _ | _, NaN => NaN
  | Fin x, Fin y => fin (x * y)
  | _, _ => inf_of_sign (sign_mul (sign_of a) (sign_of b))
  end.

(** [x / 0] is an infinity with the sign of [x], and [0 / 0] is NaN; a
    finite value over an infinity is zero. *)
Definition div (a b : num) : num :=
  match a, b with
  | NaN, _ | _, NaN => NaN
  | Fin x, Fin y =>
      match qsign y with
      | Eq => inf_of_sign (qsign x)
      | _ => fin (x / y)
      end
  | Fin _, _ => zero
  | _, Fin y =>
      match qsign y with
      | Lt => neg a
      | _ => a
      end
  | _, _ => NaN
  end.

(** Comparisons: every comparison with NaN is false. *)
Definition ltb (a b : num) : bool :=
  match a, b with
  | NaN, _ | _, NaN => false
  | Fin x, Fin y => match x ?= y with Lt => true | _ => false end
  | NInf, NInf | PInf, _ | _, NInf => false
  | _, _ => true
  end.

Definition leb (a b : num) : bool :=
  match a, b with
  | NaN, _ | _, NaN => false
  | Fin x, Fin y => match x ?= y with Gt => false | _ => true end
  | NInf, _ | _, PInf => true
  | _, _ => false
  end.

Definition gtb (a b : num) : bool := ltb b a.
Definition geb (a b : num) : bool := leb b a.

(** [Number.isFinite]. *)
Definition isFinite (a : num) : bool :=
  match a with Fin _ => true | _ => false end.

(** [Math.min] and [Math.max] of two arguments. *)
Definition min (a b : num) : num :=
  match a, b with
  | NaN, _ | _, NaN => NaN
  | _, _ => if leb a b then a else b
  end.

Definition max (a b : num) : num :=
  match a, b with
  | NaN, _ | _, NaN => NaN
  | _, _ => if leb a b then b else a
  end.

(** [Math.abs]. *)
Definition abs (a : num) : num :=
  match a with
  | Fin q => fin (Qabs q)
  | PInf | NInf => PInf
  | NaN => NaN
  end.

(** [Math.pow(base, e)] for an integral exponent [e]. *)
Definition powZ (base : num) (e : Z) : num :=
  match base with
  | Fin q =>
      if (e <? 0)%Z && Qeq_bool q 0 then PInf else fin (q ^ e)
  | PInf =>
      match e with Z0 => one | Zpos _ => PInf | Zneg _ => zero end
  | NInf =>
      match e with
      | Z0 => one
      | Zpos _ => if Z.even e then PInf else NInf
      | Zneg _ => zero
      end
  | NaN => match e with Z0 => one | _ => NaN end
  end.

(** Truthiness of a number: [0] and NaN are falsy. *)
Definition truthy (a : num) : bool :=
  match a with
  | Fin q => negb (Qeq_bool q 0)
  | PInf | NInf => true
  | NaN => false
  end.

(** [a || b] on numbers. *)
Definition or_else (a b : num) : num := if truthy a then a else b.

(** Rounding of a rational to the nearest multiple of [1/100], ties away
    from zero: the number [toFixed(2)] prints. *)
Definition round_half_away (q : Q) : Z :=
  match qsign q with
  | Lt => (- Qfloor (- q + (1 # 2)))%Z
  | _ => Qfloor (q + (1 # 2))
  end.

Definition cents (q : Q) : Z := round_half_away (q * 100).

(** [+x.toFixed(2)]: beyond [1e21] [toFixed] prints the number itself. *)
Definition toFixed2 (a : num) : num :=
  match a with
  | Fin q =>
      if Qle_bool (10 ^ 21) (Qabs q) then a
      else fin (inject_Z (cents q) / 100)
  | _ => a
  end.

Definition of_Z (z : Z) : num := Fin (inject_Z z).

(** Equality of numbers up to the representation of the fraction. *)
Definition equiv (a b : num) : Prop :=
  match a, b with
  | Fin x, Fin y => x == y
  | PInf, PInf | NInf, NInf | NaN, NaN => True
  | _, _ => False
  end.

End JS.

Declare Scope js_scope.
Delimit Scope js_scope with js.
Bind Scope js_scope with JS.num.
Infix "+" := JS.add : js_scope.
Infix "-" := JS.sub : js_scope.
Infix "*" := JS.mul : js_scope.
Infix "/" := JS.div : js_scope.
Infix "<?" := JS.ltb : js_scope.
Infix "<=?" := JS.leb : js_scope.
Infix ">?" := JS.gtb : js_scope.
Infix ">=?" := JS.geb : js_scope.
Infix "||" := JS.or_else : js_scope.
Notation "- x" := (JS.neg x) : js_scope.
Infix "==" := JS.equiv : js_scope.

Import JS.

Local Open Scope Z_scope.

(** Results of code that can throw. *)
Inductive outcome (A : Type) : Type :=
| Ok (a : A)
| Throw (message : string).
Arguments Ok {A} a.
Arguments Throw {A} message.

(* ================================================================== *)
(** ** loanEngine.js: the amortisation schedule *)
(* ================================================================== *)

Module LoanEngine.

(** A date string [YYYY-MM-DD], already split into its three numbers.  The
    day is a valid day of its month, so [new Date(y, m - 1, d)] does not
    roll over into the next month. *)
Record isoDate : Type := { iso_year : Z; iso_month : Z; iso_day : Z }.

(** A [Date] anchored on the first of a month is the number of months
    since year 0: [new Date(y, m, 1)] is [12 * y + m], which also gives
    the roll-over of [addMonths]. *)
Definition monthDate : Type := Z.

Definition getFullYear (d : monthDate) : Z := d / 12.
Definition getMonth (d : monthDate) : Z := d mod 12.

(** [parseISODateLocal], followed by the anchoring on the first of the
    month that every caller applies. *)
Definition parseISODateLocal (iso : option isoDate) : option monthDate :=
  match iso with
  | Some d => Some (12 * iso_year d + (iso_month d - 1))
  | None => None
  end.

(** A month key ["YYYY-MM"] as the pair of its numbers. *)
Definition monthKey : Type := (Z * Z)%type.

Definition monthKeyFromDate (d : monthDate) : monthKey :=
  (getFullYear d, getMonth d + 1).

Definition monthKeyFromISO (iso : isoDate) : monthKey :=
  (iso_year iso, iso_month iso).

Definition monthKey_eqb (a b : monthKey) : bool :=
  (fst a =? fst b) && (snd a =? snd b).

Definition addMonths (d : monthDate) (n : Z) : monthDate := d + n.

(** Loan events: [{type: "prepayment", date, amount}],
    [{type: "deferral", startDate, months}] (with [date] as the fallback
    of [startDate], resolved here) and
    [{type: "default", date, recoveryAmount}].  A missing date is
    [None]; [months] is a whole number. *)
Inductive loanEvent : Type :=
| Prepayment (date : option isoDate) (amount : num)
| Deferral (startDate : option isoDate) (months : Z)
| Default (date : option isoDate) (recoveryAmount : num).

Record loan : Type := {
  loanId : string;
  borrowerId : string;
  principal : num;
  nominalRate : num;
  termYears : Z;
  graceYears : Z;
  loanStartDate : option isoDate;
  purchaseDate : option isoDate;
  events : list loanEvent;
  ownershipLots : list (string * num)
}.

(** One row of the schedule.  The display date, the fee, the ownership
    date, the deferral counters, the recovery and the cumulative
    columns, which the loop writes and never reads back, are left out;
    a flag that the source leaves undefined is [false]. *)
Record amortRow : Type := {
  monthIndex : Z;
  loanDate : monthDate;
  payment : num;
  scheduledPrincipal : num;
  prepaymentPrincipal : num;
  principalPaid : num;
  interest : num;
  balance : num;
  accruedInterest : num;
  isDeferred : bool;
  isOwned : bool;
  defaulted : bool;
  isTerminal : bool;
  isPaidOff : bool;
  contractualMonth : Z
}.

(** [prepayMap[key] || []]: the prepayment amounts dated in a month, in
    the order of the event list. *)
Fixpoint prepayMap (evs : list loanEvent) (key : monthKey) : list num :=
  match evs with
  | [] => []
  | Prepayment (Some d) amt :: rest =>
      if monthKey_eqb (monthKeyFromISO d) key
      then amt :: prepayMap rest key
      else prepayMap rest key
  | _ :: rest => prepayMap rest key
  end.

(** [deferralStartMap[key]]: the months of all deferrals starting in a
    month, added up; [0] stands for an absent entry, which the source
    tests by truthiness. *)
Fixpoint deferralStartMap (evs : list loanEvent) (key : monthKey) : Z :=
  match evs with
  | [] => 0
  | Deferral (Some d) m :: rest =>
      if (0 <? m) && monthKey_eqb (monthKeyFromISO d) key
      then Z.max 0 m + deferralStartMap rest key
      else deferralStartMap rest key
  | _ :: rest => deferralStartMap rest key
  end.

(** [events.find(e => e.type === "default" && e.date)]: month key and
    recovery of the first dated default event. *)
Fixpoint defaultEvent (evs : list loanEvent) : option (monthKey * num) :=
  match evs with
  | [] => None
  | Default (Some d) rec :: _ =>
      Some (monthKeyFromISO d, JS.or_else rec JS.zero)
  | _ :: rest => defaultEvent rest
  end.

(** The [forEach] over the prepayments of a month: the pair of
    [prepaymentThisMonth] and the balance left. *)
Fixpoint applyPrepayments (amts : list num) (paid bal : num) : num * num :=
  match amts with
  | [] => (paid, bal)
  | e :: rest =>
      let amt := JS.or_else e JS.zero in
      if (amt >? JS.zero)%js then
        let applied := JS.min bal amt in
        applyPrepayments rest (paid + applied)%js (bal - applied)%js
      else applyPrepayments rest paid bal
  end.

(** The variables the month loop carries from one iteration to the
    next. *)
Record loopState : Type := {
  st_balance : num;
  st_calendarDate : monthDate;
  st_deferralRemaining : Z;
  st_deferralTotal : Z;
  st_i : Z
}.

Section Schedule.

Variable l : loan.
Variable start : monthDate.
Variable purchaseMonth : monthDate.

Definition monthlyRate : num := (nominalRate l / Fin 12)%js.
Definition graceMonths : Z := graceYears l * 12.
Definition repaymentMonths : Z := termYears l * 12.
Definition totalMonths : Z := graceMonths + repaymentMonths.

Definition originalMonthlyPayment : num :=
  if 0 <? repaymentMonths
  then ((principal l * monthlyRate)
        / (JS.one - JS.powZ (JS.one + monthlyRate) (- repaymentMonths)))%js
  else JS.zero.

Definition defaultRow (n : Z) (s : loopState) (applied bal : num) : amortRow :=
  {| monthIndex := n + 1;
     loanDate := st_calendarDate s;
     payment := JS.toFixed2 applied;
     scheduledPrincipal := JS.zero;
     prepaymentPrincipal := JS.toFixed2 applied;
     principalPaid := JS.toFixed2 applied;
     interest := JS.zero;
     balance := JS.toFixed2 bal;
     accruedInterest := JS.zero;
     isDeferred := false;
     isOwned := purchaseMonth <=? st_calendarDate s;
     defaulted := true;
     isTerminal := true;
     isPaidOff := false;
     contractualMonth := st_i s + 1 |}.

Definition deferralRow (n : Z) (s : loopState) (accrued prepaid bal : num)
  : amortRow :=
  {| monthIndex := n + 1;
     loanDate := st_calendarDate s;
     payment := JS.zero;
     scheduledPrincipal := JS.zero;
     prepaymentPrincipal := JS.toFixed2 prepaid;
     principalPaid := JS.toFixed2 prepaid;
     interest := JS.zero;
     balance := JS.toFixed2 bal;
     accruedInterest := JS.toFixed2 accrued;
     isDeferred := true;
     isOwned := purchaseMonth <=? st_calendarDate s;
     defaulted := false;
     isTerminal := false;
     isPaidOff := false;
     contractualMonth := st_i s + 1 |}.

Definition normalRow (n : Z) (s : loopState)
    (paymentAmt sched prepaid intr bal : num) (paidOff : bool) : amortRow :=
  {| monthIndex := n + 1;
     loanDate := st_calendarDate s;
     payment := JS.toFixed2 paymentAmt;
     scheduledPrincipal := JS.toFixed2 sched;
     prepaymentPrincipal := JS.toFixed2 prepaid;
     principalPaid := JS.toFixed2 (sched + prepaid)%js;
     interest := JS.toFixed2 intr;
     balance := JS.toFixed2 bal;
     accruedInterest := JS.zero;
     isDeferred := false;
     isOwned := purchaseMonth <=? st_calendarDate s;
     defaulted := false;
     isTerminal := paidOff;
     isPaidOff := paidOff;
     contractualMonth := st_i s + 1 |}.

(** The terminal branch: in the month of the default event the recovery
    is applied, the row is pushed and the loop is left. *)
Definition defaultStep (n : Z) (s : loopState) : option amortRow :=
  match defaultEvent (events l) with
  | Some (defaultMonthKey, defaultRecovery) =>
      if monthKey_eqb (monthKeyFromDate (st_calendarDate s)) defaultMonthKey
      then
        let applied := JS.min (st_balance s) defaultRecovery in
        Some (defaultRow n s applied (st_balance s - applied)%js)
      else None
  | None => None
  end.

(** One pass through the body of the month loop: the row it pushes, and
    the state of the next pass unless the pass ends in [break]. *)
Definition monthStep (n : Z) (s : loopState) : amortRow * option loopState :=
  match defaultStep n s with
  | Some r => (r, None)
  | None =>
    let key := monthKeyFromDate (st_calendarDate s) in
    let bal := st_balance s in
    let starting :=
      (st_deferralRemaining s =? 0)
      && negb (deferralStartMap (events l) key =? 0) in
    let deferralRemaining :=
      if starting then deferralStartMap (events l) key
      else st_deferralRemaining s in
    let deferralTotal :=
      if starting then deferralStartMap (events l) key
      else st_deferralTotal s in
    if 0 <? deferralRemaining then
      let accrued := (bal * monthlyRate)%js in
      let '(prepaid, bal') :=
        applyPrepayments (prepayMap (events l) key) JS.zero (bal + accrued)%js in
      (deferralRow n s accrued prepaid bal',
       Some {| st_balance := bal';
               st_calendarDate := addMonths (st_calendarDate s) 1;
               st_deferralRemaining := deferralRemaining - 1;
               st_deferralTotal := deferralTotal;
               st_i := st_i s + 1 |})
    else
      let intr := (bal * monthlyRate)%js in
      let monthsSinceLoanStart :=
        (getFullYear (st_calendarDate s) - getFullYear start) * 12
        + (getMonth (st_calendarDate s) - getMonth start) in
      let '(paymentAmt, sched, bal1) :=
        if monthsSinceLoanStart <? graceMonths then
          (JS.zero, JS.zero, (bal + intr)%js)
        else
          let sched := JS.min (originalMonthlyPayment - intr)%js bal in
          let b := JS.max JS.zero (bal - sched)%js in
          (originalMonthlyPayment, sched,
           if (b <=? Fin (1 # 100))%js then JS.zero else b) in
      let '(prepaid, bal2) :=
        applyPrepayments (prepayMap (events l) key) JS.zero bal1 in
      let paidOff := (bal2 <=? JS.zero)%js in
      (normalRow n s paymentAmt sched prepaid intr bal2 paidOff,
       if paidOff then None
       else Some {| st_balance := bal2;
                    st_calendarDate := addMonths (st_calendarDate s) 1;
                    st_deferralRemaining := deferralRemaining;
                    st_deferralTotal := deferralTotal;
                    st_i := st_i s + 1 |})
  end.

(** The loop [for (let i = 0; i < totalMonths; )]: every pass that does
    not break increments [i], so [totalMonths] passes are enough. *)
Fixpoint monthLoop (fuel : nat) (n : Z) (s : loopState) : list amortRow :=
  match fuel with
  | O => []
  | S fuel' =>
      if st_i s <? totalMonths then
        let '(r, next) := monthStep n s in
        r :: match next with
             | Some s' => monthLoop fuel' (n + 1) s'
             | None => []
             end
      else []
  end.

Definition initialState : loopState :=
  {| st_balance := JS.or_else (principal l) JS.zero;
     st_calendarDate := start;
     st_deferralRemaining := 0;
     st_deferralTotal := 0;
     st_i := 0 |}.

End Schedule.

(** The closing pass: [last.isPaidOff = last.balance <= 0]. *)
Definition setPaidOff (r : amortRow) : amortRow :=
  {| monthIndex := monthIndex r;
     loanDate := loanDate r;
     payment := payment r;
     scheduledPrincipal := scheduledPrincipal r;
     prepaymentPrincipal := prepaymentPrincipal r;
     principalPaid := principalPaid r;
     interest := interest r;
     balance := balance r;
     accruedInterest := accruedInterest r;
     isDeferred := isDeferred r;
     isOwned := isOwned r;
     defaulted := defaulted r;
     isTerminal := isTerminal r;
     isPaidOff := (balance r <=? JS.zero)%js;
     contractualMonth := contractualMonth r |}.

Fixpoint markLast (rows : list amortRow) : list amortRow :=
  match rows with
  | [] => []
  | [r] => [setPaidOff r]
  | r :: rest => r :: markLast rest
  end.

(** The month of the purchase: an absent purchase date falls back to the
    start date. *)
Definition purchaseMonthOf (l : loan) (start : monthDate) : monthDate :=
  match parseISODateLocal (purchaseDate l) with
  | Some p => p
  | None => start
  end.

(** [buildAmortSchedule(loan)].  An absent start date makes it throw. *)
Definition buildAmortSchedule (l : loan) : outcome (list amortRow) :=
  match parseISODateLocal (loanStartDate l) with
  | None => Throw "Invalid loanStartDate"
  | Some start =>
      Ok (markLast
            (monthLoop l start (purchaseMonthOf l start)
               (Z.to_nat (totalMonths l)) 0 (initialState l start)))
  end.

End LoanEngine.

(* ================================================================== *)
(** ** Strings and objects used as dictionaries *)
(* ================================================================== *)

Module Text.

Local Open Scope string_scope.

Definition isSpace (c : ascii) : bool :=
  let n := nat_of_ascii c in
  ((9 <=? n) && (n <=? 13))%nat || (n =? 32)%nat.

Fixpoint trimStart (s : string) : string :=
  match s with
  | String c rest => if isSpace c then trimStart rest else s
  | EmptyString => EmptyString
  end.

Fixpoint rev_string (s acc : string) : string :=
  match s with
  | String c rest => rev_string rest (String c acc)
  | EmptyString => acc
  end.

(** [s.trim()], for the white space of ASCII. *)
Definition trim (s : string) : string :=
  rev_string (trimStart (rev_string (trimStart s) "")) "".

Definition lowerChar (c : ascii) : ascii :=
  let n := nat_of_ascii c in
  if ((65 <=? n) && (n <=? 90))%nat then ascii_of_nat (n + 32) else c.

Definition upperChar (c : ascii) : ascii :=
  let n := nat_of_ascii c in
  if ((97 <=? n) && (n <=? 122))%nat then ascii_of_nat (n - 32) else c.

Fixpoint mapString (f : ascii -> ascii) (s : string) : string :=
  match s with
  | String c rest => String (f c) (mapString f rest)
  | EmptyString => EmptyString
  end.

Definition toLowerCase : string -> string := mapString lowerChar.
Definition toUpperCase : string -> string := mapString upperChar.

Definition digitOf (c : ascii) : option Z :=
  let n := nat_of_ascii c in
  if ((48 <=? n) && (n <=? 57))%nat then Some (Z.of_nat (n - 48)) else None.

(** The longest run of decimal digits at the head of a string, as a
    number, with what follows it. *)
Fixpoint digits (s : string) (acc : option Z) : option Z * string :=
  match s with
  | String c rest =>
      match digitOf c with
      | Some d =>
          digits rest
            (Some (10 * match acc with Some a => a | None => 0 end + d))
      | None => (acc, s)
      end
  | EmptyString => (acc, s)
  end.

Definition signed (s : string) : Z * string :=
  match s with
  | String "-" rest => (-1, rest)
  | String "+" rest => (1, rest)
  | _ => (1, s)
  end.

(** [parseInt(s)] for decimal numerals: white space, a sign and digits;
    [None] is NaN. *)
Definition parseInt (s : string) : option Z :=
  let '(sg, rest) := signed (trimStart s) in
  match fst (digits rest None) with
  | Some n => Some (sg * n)
  | None => None
  end.

(** [Number(s)] for a string: the empty string is [0], a decimal integer
    is itself, and any other text is NaN.  (Numerals with a fraction, an
    exponent or a radix prefix are not told apart from other text.) *)
Definition numberOfString (s : string) : num :=
  match trim s with
  | EmptyString => JS.zero
  | t =>
      let '(sg, rest) := signed t in
      match digits rest None with
      | (Some n, EmptyString) => JS.of_Z (sg * n)
      | _ => NaN
      end
  end.

(** [String(n)] for an integer. *)
Definition stringOfZ (z : Z) : string :=
  DecimalString.NilZero.string_of_int (Z.to_int z).

(** An object with string keys: [lookup k o] is [o[k]], [None] standing
    for [undefined]. *)
Definition dict (A : Type) : Type := list (string * A).

Fixpoint lookup {A : Type} (k : string) (o : dict A) : option A :=
  match o with
  | [] => None
  | (k', v) :: rest => if String.eqb k k' then Some v else lookup k rest
  end.

(** [a ?? b]. *)
Definition nullish {A : Type} (a : option A) (b : A) : A :=
  match a with Some x => x | None => b end.

End Text.

Import Text.

(* ================================================================== *)
(** ** roiEngine.js: the ownership helper *)
(* ================================================================== *)

Module RoiEngine.

Import LoanEngine.

(** [getUserOwnershipPct(loan, user)]: the lots of the user, matched
    without regard to case and surrounding white space, added up. *)
Definition getUserOwnershipPct (l : loan) (user : string) : num :=
  let normalizedUser := toLowerCase (trim user) in
  fold_left
    (fun sum lot => (sum + JS.or_else (snd lot) JS.zero)%js)
    (filter
       (fun lot => String.eqb (toLowerCase (trim (fst lot))) normalizedUser)
       (ownershipLots l))
    JS.zero.

End RoiEngine.

(* ================================================================== *)
(** ** valuationEngine.js: risk tiers, curves, valuation, aggregation *)
(* ================================================================== *)

Module ValuationEngine.

Import LoanEngine.
Local Open Scope string_scope.

(** [profile.assumptions].  A field that may be absent is an option; the
    two thresholds are only used in comparisons, where an absent value
    behaves as NaN. *)
Record assumptions : Type := {
  riskPremiumBps : option (dict num);
  recoveryRate : option (dict num);
  prepaymentMultiplier : option num;
  graduationRateThreshold : num;
  earningsThreshold : num;
  ficoBorrowerAdjustment : option num;
  ficoCosignerAdjustment : option num;
  baseRiskFreeRate : option num;
  prepaySeasoningYears : option num;
  degreeAdjustmentsBps : option (dict num);
  schoolAdjustmentsBps : option (dict num);
  yearInSchoolAdjustmentsBps : option (dict num);
  graduateAdjustmentBps : option num
}.

(** The literal of [SYSTEM_PROFILE.assumptions] when no configuration
    overrides it. *)
Definition SYSTEM_DEFAULTS : assumptions :=
  {| riskPremiumBps :=
       Some [("LOW", Fin 250); ("MEDIUM", Fin 350); ("HIGH", Fin 550);
             ("VERY_HIGH", Fin 750)];
     recoveryRate :=
       Some [("LOW", Fin 30); ("MEDIUM", Fin 22); ("HIGH", Fin 15);
             ("VERY_HIGH", Fin 10)];
     prepaymentMultiplier := Some (Fin 1);
     graduationRateThreshold := Fin 75;
     earningsThreshold := Fin 70000;
     ficoBorrowerAdjustment := Some (Fin 50);
     ficoCosignerAdjustment := Some (Fin 25);
     baseRiskFreeRate := Some (Fin (17 # 4));
     prepaySeasoningYears := None;
     degreeAdjustmentsBps := None;
     schoolAdjustmentsBps := None;
     yearInSchoolAdjustmentsBps := None;
     graduateAdjustmentBps := None |}.

(** [borrower.yearInSchool]: a number, a text (a grade-level letter or
    anything else), or [null]; an absent field is [None]. *)
Inductive yearValue : Type :=
| YearNum (n : Z)
| YearCode (s : string)
| YearNull.

(** A borrower record.  An absent or [null] score is [0], which is how
    the arithmetic and the truthiness tests of the source read it. *)
Record borrower : Type := {
  b_borrowerId : string;
  borrowerFico : num;
  cosignerFico : num;
  yearInSchool : option yearValue;
  isGraduateStudent : bool;
  school : option string;
  opeid : option string;
  degreeType : string
}.

(** The object [{}] that stands for an unknown borrower. *)
Definition emptyBorrower : borrower :=
  {| b_borrowerId := "";
     borrowerFico := JS.zero;
     cosignerFico := JS.zero;
     yearInSchool := None;
     isGraduateStudent := false;
     school := None;
     opeid := None;
     degreeType := "" |}.

(** A record of the school-tier table; an absent or [null] number is
    NaN, which is falsy like them. *)
Record schoolData : Type := {
  grad_rate : num;
  median_earnings_10yr : num
}.

(** The curve of one risk tier in the valuation-curve table. *)
Record riskCurve : Type := {
  curve_riskPremiumBps : num;
  cumulativeDefaultPct : list num;
  valuesPct : list num;
  grossRecoveryPct : option num;
  recoveryLagMonths : nat
}.

(** The module-level state of the engine and of its collaborators, and
    the date [new Date()] returns. *)
Record context : Type := {
  SYSTEM_PROFILE : assumptions;
  VALUATION_CURVES : option (dict riskCurve);
  SCHOOLTIERS : option (dict schoolData);
  BORROWERS : list borrower;
  VALUATION_OVERRIDES : dict (borrower -> borrower);
  today : monthDate
}.

Definition deriveFicoBand (fico : option num) : string :=
  match fico with
  | None => "UNKNOWN"
  | Some f =>
      if (f >=? Fin 760)%js then "A"
      else if (f >=? Fin 720)%js then "B"
      else if (f >=? Fin 680)%js then "C"
      else if (f >=? Fin 640)%js then "D"
      else "E"
  end.

Definition computeSchoolTier (sd : schoolData) (a : assumptions) : string :=
  let grad := JS.or_else (grad_rate sd) JS.zero in
  let earn := JS.or_else (median_earnings_10yr sd) (Fin 50000) in
  if (grad >=? graduationRateThreshold a)%js
     && (earn >=? earningsThreshold a)%js
  then "Tier 1"
  else if (grad >=? graduationRateThreshold a * Fin (8 # 10))%js
          || (earn >=? earningsThreshold a * Fin (8 # 10))%js
  then "Tier 2"
  else "Tier 3".

(** [getSchoolTier(schoolName, opeid, assumptions)].  Reading a field
    of the missing [DEFAULT] record is a [TypeError]. *)
Definition getSchoolTier (tiers : option (dict schoolData))
    (schoolName : string) (opeid : option string) (a : assumptions)
  : outcome string :=
  match tiers with
  | None | Some [] => Ok "Tier 3"
  | Some table =>
      let fallback := lookup "DEFAULT" table in
      let found :=
        match opeid with
        | None | Some EmptyString => fallback
        | Some id =>
            match lookup (trim id) table with
            | Some sd => Some sd
            | None => fallback
            end
        end in
      match found with
      | Some sd => Ok (computeSchoolTier sd a)
      | None => Throw "TypeError"
      end
  end.

Definition getSchoolAdjBps (tier : string) : num :=
  let adjMap : dict num :=
    [("Tier 1", Fin (-75)); ("Tier 2", Fin 0); ("Tier 3", Fin 125);
     ("Unknown", Fin 100)] in
  JS.or_else (nullish (lookup tier adjMap) NaN) (Fin 100).

(** [yearNum] of [deriveRiskTier]: the upper-cased text, or the number
    printed. *)
Definition yearText (y : option yearValue) (missing : string) : string :=
  match y with
  | None => missing
  | Some (YearNum n) => stringOfZ n
  | Some (YearCode s) => s
  | Some YearNull => "null"
  end.

Definition effectiveYear (y : option yearValue) : Z :=
  let yearNum :=
    match y with
    | Some (YearCode s) => toUpperCase s
    | _ => yearText y "Z"
    end in
  let yearMap : dict Z := [("A", 6); ("B", 7); ("C", 8); ("D", 9); ("Z", 1)]%Z in
  match lookup yearNum yearMap with
  | Some v => v
  | None =>
      match parseInt yearNum with
      | Some v => if (v =? 0)%Z then 1%Z else v
      | None => 1%Z
      end
  end.

Definition deriveRiskTier (b : borrower) (a : assumptions) : string :=
  let alpha := Fin (7 # 10) in
  let blendedFico :=
    JS.max (borrowerFico b)
      (alpha * borrowerFico b + (JS.one - alpha) * cosignerFico b)%js in
  let band := deriveFicoBand (Some blendedFico) in
  let riskTier :=
    if String.eqb band "A" && (3 <=? effectiveYear (yearInSchool b))%Z
    then "LOW"
    else if String.eqb band "A" || String.eqb band "B" then "MEDIUM"
    else if String.eqb band "C" || String.eqb band "D" then "HIGH"
    else "VERY_HIGH" in
  if (blendedFico >=? Fin 780)%js then "LOW"
  else if (blendedFico >=? Fin 720)%js && String.eqb riskTier "HIGH"
  then "MEDIUM"
  else riskTier.

(** [computeMonthlyPayment]. *)
Definition computeMonthlyPayment (principal annualRate : num) (months : Z)
  : num :=
  let r := (annualRate / Fin 12)%js in
  (principal * r / (JS.one - JS.powZ (JS.one + r) (- months)))%js.

(** *** The internal-rate-of-return solver *)

(** The inner loop of [calculateIRR]: the cash flows from index [t] on,
    each discounted by [(1 + irr)^t], added to [npv]. *)
Fixpoint discountedSum (cfs : list num) (t : Z) (irr npv : num) : num :=
  match cfs with
  | [] => npv
  | cf :: rest =>
      discountedSum rest (t + 1) irr
        (npv + cf / JS.powZ (JS.one + irr) t)%js
  end.

Definition irrNpv (cashFlows : list num) (principal irr : num) : num :=
  discountedSum (tl cashFlows) 1 irr (- principal)%js.

Definition MAX_ITER : nat := 100.
Definition PRECISION : num := Fin (1 # 1000000).

(** How the [for] loop of [calculateIRR] is left: by the [return] inside
    it, or by running out of iterations with the last midpoint. *)
Inductive bisection : Type :=
| Converged (annualised : num)
| Exhausted (irr : num).

Fixpoint bisect (iters : nat) (cashFlows : list num) (principal : num)
    (min max irr : num) : bisection :=
  match iters with
  | O => Exhausted irr
  | S iters' =>
      let npv := irrNpv cashFlows principal irr in
      if (JS.abs npv <? PRECISION)%js
      then Converged (irr * Fin 12 * Fin 100)%js
      else
        let min' := if (npv >? JS.zero)%js then irr else min in
        let max' := if (npv >? JS.zero)%js then max else irr in
        bisect iters' cashFlows principal min' max'
          ((min' + max') / Fin 2)%js
  end.

Definition calculateIRR (cashFlows : list num) (principal : num) : num :=
  match bisect MAX_ITER cashFlows principal JS.zero JS.one (Fin (8 # 1000)) with
  | Converged r => r
  | Exhausted irr =>
      let annualIrr := (irr * Fin 12 * Fin 100)%js in
      if JS.isFinite annualIrr && (annualIrr >=? Fin (-5))%js
      then annualIrr else NaN
  end.

(** *** Curve interpolation *)

Section Valuation.

(** [root12 x] stands for [Math.pow(x, 1 / 12)] at a positive finite
    [x] other than one: the one operation of the engine that leaves the
    rationals. *)
Variable root12 : Q -> Q.

(** [Math.pow(x, 1 / 12)]. *)
Definition pow12 (x : num) : num :=
  match x with
  | Fin q =>
      match JS.qsign q with
      | Lt => NaN
      | Eq => JS.zero
      | Gt => if Qeq_bool q 1 then JS.one else JS.fin (root12 q)
      end
  | PInf | NInf => PInf
  | NaN => NaN
  end.

(** The monthly rate equivalent to an annual percentage:
    [1 - Math.pow(1 - pct / 100, 1 / 12)]. *)
Definition monthlyHazard (annualPct : num) : num :=
  (JS.one - pow12 (JS.one - annualPct / Fin 100))%js.

Definition lengthBelow (out : list num) (maxMonths : Z) : bool :=
  (Z.of_nat (List.length out) <? maxMonths)%Z.

(** The inner loop: up to twelve copies, while there is room. *)
Fixpoint pushMonths (m : nat) (x : num) (maxMonths : Z) (out : list num)
  : list num :=
  match m with
  | O => out
  | S m' =>
      if lengthBelow out maxMonths
      then pushMonths m' x maxMonths (out ++ [x])
      else out
  end.

(** The outer loop over the years of the curve. *)
Fixpoint spreadYears (annualPct : list num) (maxMonths : Z) (out : list num)
  : list num :=
  match annualPct with
  | [] => out
  | a :: rest =>
      if lengthBelow out maxMonths
      then spreadYears rest maxMonths
             (pushMonths 12 (monthlyHazard a) maxMonths out)
      else out
  end.

(** The closing [while] loop: the last rate, or [0] when there is none
    or it is falsy, until the vector is long enough. *)
Fixpoint padMonths (fuel : nat) (maxMonths : Z) (out : list num) : list num :=
  match fuel with
  | O => out
  | S fuel' =>
      if lengthBelow out maxMonths
      then padMonths fuel' maxMonths
             (out ++ [JS.or_else (last out NaN) JS.zero])
      else out
  end.

Definition fillMonths (annualPct : list num) (maxMonths : Z) : list num :=
  let out := spreadYears annualPct maxMonths [] in
  padMonths (Z.to_nat (maxMonths - Z.of_nat (List.length out))) maxMonths out.

(** [cum.map((c, i) => i === 0 ? c : c - cum[i - 1])]. *)
Fixpoint decumulate (prev : option num) (cum : list num) : list num :=
  match cum with
  | [] => []
  | c :: rest =>
      match prev with
      | None => c
      | Some p => (c - p)%js
      end :: decumulate (Some c) rest
  end.

Definition interpolateCumulativeDefaultsToMonthlyPD
    (cumDefaultsPct : list num) (maxMonths : Z) : list num :=
  fillMonths (decumulate None cumDefaultsPct) maxMonths.

Definition interpolateAnnualCPRToMonthlySMM
    (annualCPRPct : list num) (maxMonths : Z) : list num :=
  fillMonths annualCPRPct maxMonths.

(** *** Valuation of one loan *)

Record riskBreakdown : Type := {
  baseRiskBps : num;
  degreeAdj : num;
  schoolAdj : num;
  yearAdj : num;
  gradAdj : num;
  ficoAdj : num;
  totalRiskBps : num;
  schoolTier : string
}.

(** The object [valueLoan] returns, without the per-month tables it
    carries for display.  [None] is [null] for [discountRate] and
    [npvRatio], and an absent field for the other two. *)
Record valuation : Type := {
  v_loanId : string;
  riskTier : string;
  discountRate : option num;
  npv : num;
  npvRatio : option num;
  expectedLoss : num;
  expectedLossPct : option num;
  wal : num;
  irr : num;
  breakdown : option riskBreakdown
}.

(** The "unvalued" result of a loan that fails the basic checks. *)
Definition unvalued (l : loan) : valuation :=
  {| v_loanId := loanId l;
     riskTier := "UNKNOWN";
     discountRate := None;
     npv := NaN;
     npvRatio := None;
     expectedLoss := NaN;
     expectedLossPct := None;
     wal := NaN;
     irr := NaN;
     breakdown := None |}.

(** The result of a loan with nothing left to pay. *)
Definition settled (l : loan) (tier : string) (riskFreeRate : num)
  : valuation :=
  {| v_loanId := loanId l;
     riskTier := tier;
     discountRate := Some riskFreeRate;
     npv := JS.zero;
     npvRatio := Some JS.zero;
     expectedLoss := JS.zero;
     expectedLossPct := None;
     wal := JS.zero;
     irr := JS.zero;
     breakdown := None |}.

Definition originalPrincipal (l : loan) : num :=
  JS.or_else (principal l) JS.zero.

Definition loanRate (l : loan) : num :=
  JS.or_else (nominalRate l) JS.zero.

Definition originalTermMonths (l : loan) : Z :=
  ((if termYears l =? 0 then 10 else termYears l) * 12
   + graceYears l * 12)%Z.

(** The test of the loan basics: [true] when the loan cannot be
    valued. *)
Definition invalidBasics (l : loan) : bool :=
  (originalPrincipal l <=? JS.zero)%js
  || (loanRate l <=? JS.zero)%js
  || (originalTermMonths l <=? 0)%Z.

(** [amort.slice().reverse().find(r => r.loanDate <= today)] together
    with [amort.indexOf] of the row found. *)
Fixpoint findCurrent (rows : list amortRow) (i : Z) (now : monthDate)
    (found : option (Z * amortRow)) : option (Z * amortRow) :=
  match rows with
  | [] => found
  | r :: rest =>
      findCurrent rest (i + 1) now
        (if (loanDate r <=? now)%Z then Some (i, r) else found)
  end.

Definition currentBalanceOf (l : loan) (current : option (Z * amortRow))
  : num :=
  let b :=
    match current with
    | Some (_, r) => balance r
    | None => originalPrincipal l
    end in
  if negb (JS.isFinite b) || (b <? JS.zero)%js then JS.zero else b.

Definition remainingMonthsOf (l : loan) (rows : list amortRow)
    (current : option (Z * amortRow)) : Z :=
  match current with
  | Some (i, _) => (Z.of_nat (List.length rows) - i - 1)%Z
  | None => originalTermMonths l
  end.

(** The components of the risk premium, in basis points. *)
Definition userRiskBps (a : assumptions) (tier : string)
    (curve : option riskCurve) : num :=
  let curveBps :=
    match curve with
    | Some c => curve_riskPremiumBps c
    | None => Fin 550
    end in
  match riskPremiumBps a with
  | Some o => nullish (lookup tier o) curveBps
  | None => curveBps
  end.

Definition ficoAdjOf (a : assumptions) (b : borrower) : num :=
  ((if JS.truthy (borrowerFico b)
    then nullish (ficoBorrowerAdjustment a) (Fin 50) else JS.zero)
   + (if JS.truthy (cosignerFico b)
      then nullish (ficoCosignerAdjustment a) (Fin 25) else JS.zero))%js.

Definition normalizedDegree (b : borrower) : string :=
  if String.eqb (degreeType b) "STEM" then "STEM"
  else if String.eqb (degreeType b) "Business" then "BUSINESS"
  else if String.eqb (degreeType b) "Liberal Arts" then "LIBERAL_ARTS"
  else if String.eqb (degreeType b) "Professional (e.g. Nursing, Law)"
  then "PROFESSIONAL"
  else if String.eqb (degreeType b) "Other" then "OTHER"
  else "UNKNOWN".

Definition lookupBps (o : option (dict num)) (key : string) (dflt : num)
  : num :=
  match o with
  | Some d => nullish (lookup key d) dflt
  | None => dflt
  end.

Definition degreeAdjOf (a : assumptions) (b : borrower) : num :=
  lookupBps (degreeAdjustmentsBps a) (normalizedDegree b) JS.zero.

Definition schoolAdjOf (a : assumptions) (tier : string) : num :=
  lookupBps (schoolAdjustmentsBps a) tier (getSchoolAdjBps tier).

(** [borrower.yearInSchool >= 5 ? "5+" : String(borrower.yearInSchool)]. *)
Definition yearKey (b : borrower) : string :=
  let asNumber :=
    match yearInSchool b with
    | None => NaN
    | Some (YearNum n) => JS.of_Z n
    | Some (YearCode s) => numberOfString s
    | Some YearNull => JS.zero
    end in
  if (asNumber >=? Fin 5)%js then "5+"
  else yearText (yearInSchool b) "undefined".

Definition yearAdjOf (a : assumptions) (b : borrower) : num :=
  lookupBps (yearInSchoolAdjustmentsBps a) (yearKey b) JS.zero.

Definition gradAdjOf (a : assumptions) (b : borrower) : num :=
  if isGraduateStudent b then nullish (graduateAdjustmentBps a) JS.zero
  else JS.zero.

Definition effectiveRiskFreeRate (a : assumptions) (riskFreeRate : num)
  : num :=
  (nullish (baseRiskFreeRate a) (riskFreeRate * Fin 100) / Fin 100)%js.

Definition riskBreakdownOf (a : assumptions) (b : borrower) (tier : string)
    (curve : option riskCurve) (sTier : string) : riskBreakdown :=
  let base := userRiskBps a tier curve in
  {| baseRiskBps :=
       match curve with
       | Some c => curve_riskPremiumBps c
       | None => Fin 550
       end;
     degreeAdj := degreeAdjOf a b;
     schoolAdj := schoolAdjOf a sTier;
     yearAdj := yearAdjOf a b;
     gradAdj := gradAdjOf a b;
     ficoAdj := ficoAdjOf a b;
     totalRiskBps :=
       (base + degreeAdjOf a b + schoolAdjOf a sTier + yearAdjOf a b
        + gradAdjOf a b + ficoAdjOf a b)%js;
     schoolTier := sTier |}.

Definition cappedRiskBps (rb : riskBreakdown) : num :=
  JS.min (totalRiskBps rb) (Fin 500).

Definition discountRateOf (a : assumptions) (riskFreeRate : num)
    (rb : riskBreakdown) : num :=
  (effectiveRiskFreeRate a riskFreeRate + cappedRiskBps rb / Fin 10000)%js.

(** The variables of the monthly cash-flow loop. *)
Record cashFlowState : Type := {
  cf_balance : num;
  cf_npv : num;
  cf_totalDefaults : num;
  cf_totalRecoveries : num;
  cf_walNumerator : num;
  cf_totalCF : num;
  cf_cashFlows : list num;
  cf_recoveryQueue : list num
}.

(** [queue[i] += x] for an index inside the array. *)
Fixpoint addAt (i : nat) (x : num) (queue : list num) : list num :=
  match queue, i with
  | [], _ => []
  | q :: rest, O => (q + x)%js :: rest
  | q :: rest, S i' => q :: addAt i' x rest
  end.

Section CashFlows.

Variable l : loan.
Variable a : assumptions.
Variable monthlyLoanRate monthlyPayment monthlyDiscountRate recoveryPct : num.
Variable monthlyPD monthlySMM : list num.
Variable recoveryLag : nat.

Definition cashFlowStep (m : Z) (s : cashFlowState) : cashFlowState :=
  let balance := cf_balance s in
  if (balance <=? JS.zero)%js then
    {| cf_balance := balance;
       cf_npv := cf_npv s;
       cf_totalDefaults := cf_totalDefaults s;
       cf_totalRecoveries := cf_totalRecoveries s;
       cf_walNumerator := cf_walNumerator s;
       cf_totalCF := cf_totalCF s;
       cf_cashFlows := cf_cashFlows s ++ [JS.zero];
       cf_recoveryQueue := cf_recoveryQueue s |}
  else
    let interest := (balance * monthlyLoanRate)%js in
    let scheduledPayment :=
      JS.min
        (if (m <=? graceYears l * 12)%Z then interest else monthlyPayment)
        (balance + interest)%js in
    let scheduledPrincipal := JS.max JS.zero (scheduledPayment - interest)%js in
    let remainingAfterScheduled := (balance - scheduledPrincipal)%js in
    let baseSMM :=
      JS.or_else (nth (Z.to_nat (m - 1)) monthlySMM NaN) JS.zero in
    let seasoningYears := nullish (prepaySeasoningYears a) (Fin (5 # 2)) in
    let seasoningMonths := (seasoningYears * Fin 12)%js in
    let multiplier := nullish (prepaymentMultiplier a) JS.one in
    let effectiveMultiplier :=
      if (JS.of_Z m >=? seasoningMonths)%js then multiplier
      else (multiplier * Fin (1 # 10))%js in
    let adjustedSMM := (baseSMM * effectiveMultiplier)%js in
    let prepay := (remainingAfterScheduled * adjustedSMM)%js in
    let totalPrincipalThisMonth := (scheduledPrincipal + prepay)%js in
    let beforeDefault := (remainingAfterScheduled - prepay)%js in
    let defaultAmt :=
      (beforeDefault * nth (Z.to_nat (m - 1)) monthlyPD NaN)%js in
    let remaining := (beforeDefault - defaultAmt)%js in
    let recMonth := (Z.to_nat m + recoveryLag)%nat in
    let queued := (recMonth <? List.length (cf_recoveryQueue s))%nat in
    let lateRecovery := (defaultAmt * recoveryPct)%js in
    let queue :=
      if queued then addAt recMonth lateRecovery (cf_recoveryQueue s)
      else cf_recoveryQueue s in
    let npv0 :=
      if queued then cf_npv s
      else (cf_npv s
            + lateRecovery
              / JS.powZ (JS.one + monthlyDiscountRate) (Z.of_nat recMonth))%js in
    let recoveries0 :=
      if queued then cf_totalRecoveries s
      else (cf_totalRecoveries s + lateRecovery)%js in
    let recoveryThisMonth :=
      JS.or_else (nth (Z.to_nat m) queue NaN) JS.zero in
    let cashFlow := (interest + totalPrincipalThisMonth + recoveryThisMonth)%js in
    let discountedCF :=
      (cashFlow / JS.powZ (JS.one + monthlyDiscountRate) m)%js in
    {| cf_balance := remaining;
       cf_npv := (npv0 + discountedCF)%js;
       cf_totalDefaults := (cf_totalDefaults s + defaultAmt)%js;
       cf_totalRecoveries := (recoveries0 + recoveryThisMonth)%js;
       cf_walNumerator := (cf_walNumerator s + discountedCF * JS.of_Z m)%js;
       cf_totalCF := (cf_totalCF s + discountedCF)%js;
       cf_cashFlows := cf_cashFlows s ++ [cashFlow];
       cf_recoveryQueue := queue |}.

(** [for (let m = 1; m <= termMonths; m++)], from month [m] on. *)
Fixpoint cashFlowLoop (months : nat) (m : Z) (s : cashFlowState)
  : cashFlowState :=
  match months with
  | O => s
  | S months' => cashFlowLoop months' (m + 1) (cashFlowStep m s)
  end.

End CashFlows.

(** [valueLoan({ loan, borrower, riskFreeRate, profile })], run in the
    context [ctx].  A missing profile is replaced by the system profile;
    a missing curve table, a risk tier without a curve and a school
    table without the record it needs make the function throw. *)
Definition valueLoan (ctx : context) (l : loan) (b : borrower)
    (riskFreeRate : num) (profile : option assumptions)
  : outcome valuation :=
  let a := nullish profile (SYSTEM_PROFILE ctx) in
  let rate := loanRate l in
  if invalidBasics l then Ok (unvalued l)
  else
    let monthlyLoanRate := (rate / Fin 12)%js in
    match VALUATION_CURVES ctx with
    | None => Throw "Valuation curves not loaded"
    | Some riskTiers =>
      match buildAmortSchedule l with
      | Throw msg => Throw msg
      | Ok amort =>
        let current := findCurrent amort 0 (today ctx) None in
        let currentBalance := currentBalanceOf l current in
        let termMonths := Z.max (remainingMonthsOf l amort current) 1 in
        if (currentBalance <=? JS.zero)%js || (termMonths <=? 0)%Z
        then Ok (settled l (deriveRiskTier b a) riskFreeRate)
        else
          let monthlyPayment :=
            computeMonthlyPayment currentBalance rate termMonths in
          let tier := deriveRiskTier b a in
          let curve := lookup tier riskTiers in
          match
            getSchoolTier (SCHOOLTIERS ctx) (nullish (school b) "Unknown")
              (opeid b) a
          with
          | Throw msg => Throw msg
          | Ok sTier =>
            let rb := riskBreakdownOf a b tier curve sTier in
            let discount := discountRateOf a riskFreeRate rb in
            let monthlyDiscountRate := (discount / Fin 12)%js in
            match curve with
            | None => Throw "TypeError"
            | Some c =>
              let recoveryPct :=
                (lookupBps (recoveryRate a) tier
                   (nullish (grossRecoveryPct c) (Fin 20)) / Fin 100)%js in
              let monthlyPD :=
                interpolateCumulativeDefaultsToMonthlyPD
                  (cumulativeDefaultPct c) termMonths in
              let monthlySMM :=
                interpolateAnnualCPRToMonthlySMM (valuesPct c) termMonths in
              let final :=
                cashFlowLoop l a monthlyLoanRate monthlyPayment
                  monthlyDiscountRate recoveryPct monthlyPD monthlySMM
                  (recoveryLagMonths c) (Z.to_nat termMonths) 1
                  {| cf_balance := currentBalance;
                     cf_npv := JS.zero;
                     cf_totalDefaults := JS.zero;
                     cf_totalRecoveries := JS.zero;
                     cf_walNumerator := JS.zero;
                     cf_totalCF := JS.zero;
                     cf_cashFlows := [(- currentBalance)%js];
                     cf_recoveryQueue :=
                       repeat JS.zero
                         (Z.to_nat termMonths + recoveryLagMonths c + 1) |} in
              let loss :=
                if JS.isFinite (cf_totalDefaults final)
                   && JS.isFinite (cf_totalRecoveries final)
                then ((cf_totalDefaults final - cf_totalRecoveries final)
                      / currentBalance)%js
                else JS.zero in
              let expected :=
                if JS.isFinite loss then JS.max JS.zero loss else JS.zero in
              let solved := calculateIRR (cf_cashFlows final) currentBalance in
              Ok {| v_loanId := loanId l;
                    riskTier := tier;
                    discountRate := Some discount;
                    npv := cf_npv final;
                    npvRatio :=
                      Some (if JS.isFinite (cf_npv final)
                            then (cf_npv final / currentBalance - JS.one)%js
                            else JS.zero);
                    expectedLoss := expected;
                    expectedLossPct := Some expected;
                    wal :=
                      if (cf_totalCF final >? JS.zero)%js
                         && JS.isFinite (cf_walNumerator final)
                      then (cf_walNumerator final / cf_totalCF final / Fin 12)%js
                      else JS.zero;
                    irr := if JS.isFinite solved then solved else JS.zero;
                    breakdown := Some rb |}
            end
          end
      end
    end.

(** *** Aggregation over a portfolio *)

(** [getBorrowerById(id) || {}]. *)
Definition getBorrowerById (ctx : context) (id : string) : borrower :=
  match find (fun x => String.eqb (b_borrowerId x) id) (BORROWERS ctx) with
  | Some x => x
  | None => emptyBorrower
  end.

(** [getEffectiveBorrower]: the override of the loan, if any, spread over
    the system borrower. *)
Definition getEffectiveBorrower (ctx : context) (l : loan)
    (systemBorrower : borrower) : borrower :=
  match lookup (loanId l) (VALUATION_OVERRIDES ctx) with
  | Some override => override systemBorrower
  | None => systemBorrower
  end.

(** The assignment to [loan.nominalRate] at the head of the callback. *)
Definition withFallbackRate (l : loan) : loan :=
  {| loanId := loanId l;
     borrowerId := borrowerId l;
     principal := principal l;
     nominalRate :=
       if (nominalRate l <=? JS.zero)%js then Fin (8 # 100) else nominalRate l;
     termYears := termYears l;
     graceYears := graceYears l;
     loanStartDate := loanStartDate l;
     purchaseDate := purchaseDate l;
     events := events l;
     ownershipLots := ownershipLots l |}.

Definition ownershipFilter (currentUser ownershipMode : string) (l : loan)
  : bool :=
  let userPct := RoiEngine.getUserOwnershipPct l currentUser in
  let marketPct := RoiEngine.getUserOwnershipPct l "Market" in
  if String.eqb ownershipMode "portfolio" then (userPct >? JS.zero)%js
  else if String.eqb ownershipMode "market" then (marketPct >? JS.zero)%js
  else if String.eqb ownershipMode "all"
  then (userPct >? JS.zero)%js || (marketPct >? JS.zero)%js
  else false.

Definition ownershipPctOf (currentUser ownershipMode : string) (l : loan)
  : num :=
  let userPct := RoiEngine.getUserOwnershipPct l currentUser in
  let marketPct := RoiEngine.getUserOwnershipPct l "Market" in
  if String.eqb ownershipMode "portfolio" then userPct
  else if String.eqb ownershipMode "market" then marketPct
  else if String.eqb ownershipMode "all"
  then (if (userPct >? JS.zero)%js then userPct else marketPct)
  else JS.one.

(** A number read from a field that may be absent: [undefined] in
    arithmetic is NaN. *)
Definition numberOr (x : option num) : num := nullish x NaN.

Record valuedLoan : Type := {
  vl_loan : loan;
  vl_valuation : valuation;
  vl_currentBalance : num;
  ownershipPct : num;
  displayPrincipal : num;
  displayNPV : num;
  displayExpLoss : num
}.

(** The running sums of the aggregation. *)
Record totals : Type := {
  totalPrincipal : num;
  totalNPV : num;
  totalExpectedLossWeighted : num;
  totalWALWeighted : num;
  totalIRRWeighted : num;
  totalPrincipalForWeights : num
}.

Definition noTotals : totals :=
  {| totalPrincipal := JS.zero;
     totalNPV := JS.zero;
     totalExpectedLossWeighted := JS.zero;
     totalWALWeighted := JS.zero;
     totalIRRWeighted := JS.zero;
     totalPrincipalForWeights := JS.zero |}.

(** The callback of [filteredLoans.map]: the valued loan and the sums
    with its contribution added. *)
Definition valueOne (ctx : context) (currentUser ownershipMode : string)
    (activeProfile : option assumptions) (riskFreeRate : num)
    (t : totals) (l0 : loan) : outcome (valuedLoan * totals) :=
  let effectiveBorrower :=
    getEffectiveBorrower ctx l0 (getBorrowerById ctx (borrowerId l0)) in
  let l := withFallbackRate l0 in
  match valueLoan ctx l effectiveBorrower riskFreeRate activeProfile with
  | Throw msg => Throw msg
  | Ok v =>
    match buildAmortSchedule l with
    | Throw msg => Throw msg
    | Ok amort =>
      let currentBalance :=
        match findCurrent amort 0 (today ctx) None with
        | Some (_, r) => balance r
        | None => principal l
        end in
      let pct := ownershipPctOf currentUser ownershipMode l in
      let shown := (principal l * pct)%js in
      Ok ({| vl_loan := l;
             vl_valuation := v;
             vl_currentBalance := currentBalance;
             ownershipPct := pct;
             displayPrincipal := shown;
             displayNPV := (npv v * pct)%js;
             displayExpLoss := (expectedLoss v * pct)%js |},
          {| totalPrincipal := (totalPrincipal t + shown)%js;
             totalNPV := (totalNPV t + npv v * pct)%js;
             totalExpectedLossWeighted :=
               (totalExpectedLossWeighted t
                + numberOr (expectedLossPct v) * shown)%js;
             totalWALWeighted := (totalWALWeighted t + wal v * shown)%js;
             totalIRRWeighted := (totalIRRWeighted t + irr v * shown)%js;
             totalPrincipalForWeights :=
               (totalPrincipalForWeights t + shown)%js |})
    end
  end.

Fixpoint valueAll (ctx : context) (currentUser ownershipMode : string)
    (activeProfile : option assumptions) (riskFreeRate : num)
    (t : totals) (loans : list loan) : outcome (list valuedLoan * totals) :=
  match loans with
  | [] => Ok ([], t)
  | l :: rest =>
      match valueOne ctx currentUser ownershipMode activeProfile
              riskFreeRate t l with
      | Throw msg => Throw msg
      | Ok (v, t') =>
          match valueAll ctx currentUser ownershipMode activeProfile
                  riskFreeRate t' rest with
          | Throw msg => Throw msg
          | Ok (vs, t'') => Ok (v :: vs, t'')
          end
      end
  end.

(** The object [computePortfolioValuation] returns. *)
Record portfolioValuation : Type := {
  valuedLoans : list valuedLoan;
  pv_totalPrincipal : num;
  pv_totalNPV : num;
  totalNPVPercent : num;
  totalExpLoss : num;
  totalWAL : num;
  totalIRR : num
}.

Definition computePortfolioValuation (ctx : context) (loans : list loan)
    (currentUser ownershipMode : string)
    (activeProfile : option assumptions) (riskFreeRate : num)
  : outcome portfolioValuation :=
  let filteredLoans := filter (ownershipFilter currentUser ownershipMode) loans in
  match valueAll ctx currentUser ownershipMode activeProfile riskFreeRate
          noTotals filteredLoans with
  | Throw msg => Throw msg
  | Ok (vs, t) =>
      let weighted := (totalPrincipalForWeights t >? JS.zero)%js in
      Ok {| valuedLoans := vs;
            pv_totalPrincipal := totalPrincipal t;
            pv_totalNPV := totalNPV t;
            totalNPVPercent :=
              if (totalPrincipal t >? JS.zero)%js
              then ((totalNPV t / totalPrincipal t - JS.one) * Fin 100)%js
              else JS.zero;
            totalExpLoss :=
              if weighted
              then (totalExpectedLossWeighted t / totalPrincipalForWeights t
                    * Fin 100)%js
              else JS.zero;
            totalWAL :=
              if weighted
              then (totalWALWeighted t / totalPrincipalForWeights t)%js
              else JS.zero;
            totalIRR :=
              if weighted
              then (totalIRRWeighted t / totalPrincipalForWeights t)%js
              else JS.zero |}
  end.

End Valuation.

End ValuationEngine.

Import LoanEngine RoiEngine ValuationEngine.

(* ================================================================== *)
(** ** Predicates used in the statements *)
(* ================================================================== *)

Section Predicates.

Local Open Scope Q_scope.

(** A finite number within the closed interval from [lo] to [hi]. *)
Definition within (lo hi : Q) (x : num) : Prop :=
  match x with
  | Fin q => lo <= q <= hi
  | _ => False
  end.

(** The bracket of the bisection: finite, ordered, inside [0, 1]. *)
Definition bracketed (min max irr : num) : Prop :=
  match min, max, irr with
  | Fin a, Fin b, Fin c => 0 <= a /\ a <= c /\ c <= b /\ b <= 1
  | _, _, _ => False
  end.




(** The first [k] passes of the month loop, and the state they leave,
    unless one of them ends in [break]. *)
Fixpoint runMonths (l : loan) (start purchaseMonth : monthDate) (k : nat)
    (n : Z) (s : loopState) : option loopState :=
  match k with
  | O => Some s
  | S k' =>
      match snd (monthStep l start purchaseMonth n s) with
      | Some s' => runMonths l start purchaseMonth k' (n + 1)%Z s'
      | None => None
      end
  end.


(** The balance of a level-payment loan of principal [P] in closed form:
    with [a] the growth factor [(1 + r)^n] over the whole term and [x]
    the growth factor [(1 + r)^k] over the months elapsed, the balance
    after [k] payments is [P (a - x) / (a - 1)]. *)
Definition closedBalance (P a x : Q) : Q := P * (a - x) / (a - 1).



(** The monthly rate of an annual rate [R], and the growth of a balance
    over [k] months at that rate. *)
Definition monthlyRateOf (R : Q) : Q := Qred (R / 12).

Definition growthOver (R : Q) (k : Z) : Q := Qred (1 + monthlyRateOf R) ^ k.



(** An annual percentage that is a rate: finite, at least 0 and under
    100. *)
Definition percentage (x : num) : Prop :=
  match x with
  | Fin q => 0 <= q < 100
  | _ => False
  end.

(** A monthly rate inside [0, 1). *)
Definition unitRate (x : num) : Prop :=
  match x with
  | Fin q => 0 <= q < 1
  | _ => False
  end.

(** A computable stand-in for [Math.pow(x, 1 / 12)], used to run the
    engine on examples: forty steps of bisection between 0 and
    [max 1 x], keeping the upper end, whose twelfth power is at least
    [x]. *)
Fixpoint rootBisect (steps : nat) (x lo hi : Q) : Q :=
  match steps with
  | O => hi
  | S steps' =>
      let mid := Qred ((lo + hi) / 2) in
      if Qle_bool x (mid ^ 12)
      then rootBisect steps' x lo mid
      else rootBisect steps' x mid hi
  end.

Definition approxRoot12 (x : Q) : Q :=
  rootBisect 40 x 0 (if Qle_bool x 1 then 1 else x).

End Predicates.

(** Data for the examples. *)
Module Sample.

Local Open Scope string_scope.
Local Open Scope Z_scope.

Definition day (y m d : Z) : option isoDate :=
  Some {| iso_year := y; iso_month := m; iso_day := d |}.

(** A curve without defaults and prepayments. *)
Definition flatCurve : riskCurve :=
  {| curve_riskPremiumBps := Fin 350;
     cumulativeDefaultPct := [Fin 0; Fin 0];
     valuesPct := [Fin 0];
     grossRecoveryPct := Some (Fin 20);
     recoveryLagMonths := 3 |}.

Definition curves : dict riskCurve :=
  [("LOW", flatCurve); ("MEDIUM", flatCurve); ("HIGH", flatCurve);
   ("VERY_HIGH", flatCurve)].

(** The engine in November 2024, curves loaded, no school table. *)
Definition november2024 : context :=
  {| SYSTEM_PROFILE := SYSTEM_DEFAULTS;
     VALUATION_CURVES := Some curves;
     SCHOOLTIERS := None;
     BORROWERS := [];
     VALUATION_OVERRIDES := [];
     today := 12 * 2024 + 10 |}.

(** One thousand at 12 % over one year from the given start date. *)
Definition oneYearLoan (start : option isoDate) (evs : list loanEvent)
  : loan :=
  {| loanId := "L-1";
     borrowerId := "B-1";
     principal := Fin 1000;
     nominalRate := Fin (12 # 100);
     termYears := 1;
     graceYears := 0;
     loanStartDate := start;
     purchaseDate := None;
     events := evs;
     ownershipLots := [("jeff", Fin (1 # 2)); ("Market", Fin (1 # 2))] |}.

(** The same loan with its principal set to zero. *)
Definition emptyLoan : loan :=
  {| loanId := "L-0";
     borrowerId := "B-0";
     principal := Fin 0;
     nominalRate := Fin (12 # 100);
     termYears := 1;
     graceYears := 0;
     loanStartDate := day 2024 1 15;
     purchaseDate := None;
     events := [];
     ownershipLots := [("jeff", Fin 1)] |}.

(** The one-year loan without a start date. *)
Definition undatedLoan : loan := oneYearLoan None [].





(** A deferral of two months from the first month, and a prepayment in
    that month larger than the balance. *)
Definition deferredAndPrepaid : loan :=
  oneYearLoan (day 2024 1 15)
    [Deferral (day 2024 1 1) 2; Prepayment (day 2024 1 20) (Fin 5000)].

(** A default without recovery in the twelfth month. *)
Definition defaultedInMonth12 : loan :=
  oneYearLoan (day 2024 1 15) [Default (day 2024 12 5) (Fin 0)].

End Sample.

(* ================================================================== *)
(** ** Further predicates, and the helpers around the engine *)
(* ================================================================== *)

Section RiskScore.

Local Open Scope Q_scope.

(** The score [deriveRiskTier] classifies: the borrower's own score, or
    seven tenths of it plus three tenths of the cosigner's when that is
    more. *)
Definition blendedFicoOf (f c : Q) : Q :=
  let blend := (7 # 10) * f + (3 # 10) * c in
  if Qle_bool f blend then blend else f.

End RiskScore.

Section LevelPayments.

Local Open Scope Q_scope.

(** What is left of a debt [P] after [k] months, each of which adds the
    interest at the monthly rate [r] and takes the payment [p] off. *)
Fixpoint balanceAfter (P r p : Q) (k : nat) : Q :=
  match k with
  | O => P
  | S k' => balanceAfter P r p k' * (1 + r) - p
  end.

End LevelPayments.

(* ================================================================== *)
(** ** loanEngine.js: reading a schedule *)
(* ================================================================== *)

Module LoanQueries.

(** [xs.at(-1)]: the last element, [None] for [undefined]. *)
Definition atLast {A : Type} (xs : list A) : option A :=
  match xs with
  | [] => None
  | x :: rest => Some (last rest x)
  end.


(** The test of the [find] in [getCanonicalCurrentAmortRow]: a row of
    the year and month of [today] that is not marked as not owned. *)
Definition ownedRowOf (today : monthDate) (r : amortRow) : bool :=
  (getFullYear (loanDate r) =? getFullYear today)
  && (getMonth (loanDate r) =? getMonth today)
  && isOwned r.

(** [getCanonicalCurrentAmortRow(schedule, today)]; [None] is
    [null]. *)
Definition getCanonicalCurrentAmortRow (schedule : list amortRow)
    (today : monthDate) : option amortRow :=
  match schedule with
  | [] => None
  | _ =>
      match find (ownedRowOf today) schedule with
      | Some r => Some r
      | None =>
          match atLast (filter isOwned schedule) with
          | Some r => Some r
          | None => atLast schedule
          end
      end
  end.

(** [getCurrentLoanBalance(loan, today)], for a loan that carries the
    schedule [amortSchedule], or else the cumulative schedule
    [cumSchedule], or neither. *)
Definition getCurrentLoanBalance (amortSchedule cumSchedule
    : option (list amortRow)) (today : monthDate) : num :=
  let sched :=
    match amortSchedule with
    | Some s => s
    | None => nullish cumSchedule []
    end in
  match getCanonicalCurrentAmortRow sched today with
  | Some r => JS.or_else (balance r) JS.zero
  | None => JS.zero
  end.


(** Rows dated month after month from [base] on and owned from the
    month [pm] on, as the rows of a schedule are. *)
Definition dated (pm base : monthDate) (rows : list amortRow) : Prop :=
  forall k r,
    nth_error rows k = Some r ->
    loanDate r = base + Z.of_nat k
    /\ isOwned r = (pm <=? base + Z.of_nat k).

End LoanQueries.

(* ================================================================== *)
(** ** roiEngine.js: returns on investment *)
(* ================================================================== *)

Module RoiViews.

(** The loop of [deriveLoansWithRoi] that copies the rows of the raw
    schedule up to and including the first one flagged as terminal. *)
Fixpoint amortSchedule (rawAmort : list amortRow) : list amortRow :=
  match rawAmort with
  | [] => []
  | r :: rest => r :: (if isTerminal r then [] else amortSchedule rest)
  end.


(** An entry of a return series.  The date is the month of the row the
    entry was computed from, [None] when the field is not a valid
    [Date]; an absent number is NaN. *)
Record roiEntry : Type := {
  entry_date : option monthDate;
  entry_roi : num;
  entry_invested : num
}.

(** A loan as the return functions read it: its identifier ([None]
    when absent or empty), its return series ([None] when the field is
    not an array) and its [invested] field. *)
Record roiLoan : Type := {
  rl_id : option string;
  rl_roiSeries : option (list roiEntry);
  rl_invested : num
}.

(** The placeholder entries, with a return of zero and no date. *)
Definition placeholder (invested : num) : roiEntry :=
  {| entry_date := None; entry_roi := JS.zero; entry_invested := invested |}.

Definition dateOf (e : roiEntry) : monthDate := nullish (entry_date e) 0.

(** [series.filter(r => r.date is a valid Date)]. *)
Definition validEntries (series : list roiEntry) : list roiEntry :=
  filter (fun e => match entry_date e with Some _ => true | None => false end)
    series.

(** [.sort((a, b) => a.date - b.date)]: the sort is stable, so an entry
    goes in front of the first entry that is not dated before it. *)
Fixpoint insertEntry (e : roiEntry) (sorted : list roiEntry) : list roiEntry :=
  match sorted with
  | [] => [e]
  | x :: rest =>
      if dateOf e <=? dateOf x then e :: x :: rest
      else x :: insertEntry e rest
  end.

Definition sortByDate (series : list roiEntry) : list roiEntry :=
  fold_right insertEntry [] series.

(** [getRoiEntryAsOfMonth(loan, monthDate)]; the month [None] stands for
    an argument that is not a valid [Date].  The end of the month
    [monthDate] is not before a date exactly when the month of the date
    is not after [monthDate]. *)
Definition getRoiEntryAsOfMonth (l : roiLoan) (monthDate : option monthDate)
  : roiEntry :=
  match rl_id l, rl_roiSeries l, monthDate with
  | Some _, Some series, Some asOf =>
      let validSeries := sortByDate (validEntries series) in
      match validSeries with
      | [] => placeholder (JS.or_else (rl_invested l) JS.zero)
      | _ =>
          match find (fun e => dateOf e <=? asOf) (rev validSeries) with
          | Some e => e
          | None => placeholder (JS.or_else (rl_invested l) JS.zero)
          end
      end
  | _, _, _ => placeholder JS.zero
  end.



(** Entries in the order of their dates. *)
Fixpoint ascending (xs : list roiEntry) : Prop :=
  match xs with
  | [] => True
  | x :: rest => Forall (fun y => dateOf x <= dateOf y) rest /\ ascending rest
  end.



End RoiViews.

(* ================================================================== *)
(** ** borrowerStore.js and valuationOverrides.js *)
(* ================================================================== *)

Module BorrowerStore.

Local Open Scope string_scope.

(** [BORROWERS.find(b => b.borrowerId === borrowerId)]. *)
Definition getBorrowerById (BORROWERS : list borrower) (borrowerId : string)
  : option borrower :=
  find (fun b => String.eqb (b_borrowerId b) borrowerId) BORROWERS.

(** [xs.findIndex(p)], counted from [i]; [None] is [-1]. *)
Fixpoint findIndex {A : Type} (p : A -> bool) (xs : list A) (i : nat)
  : option nat :=
  match xs with
  | [] => None
  | x :: rest => if p x then Some i else findIndex p rest (S i)
  end.

(** [xs[i] = v] for an index inside the array. *)
Fixpoint assignAt {A : Type} (i : nat) (v : A) (xs : list A) : list A :=
  match xs, i with
  | [], _ => []
  | _ :: rest, O => v :: rest
  | x :: rest, S i' => x :: assignAt i' v rest
  end.

(** [upsertBorrower(borrower)]: the store it leaves. *)
Definition upsertBorrower (BORROWERS : list borrower) (b : borrower)
  : list borrower :=
  match
    findIndex (fun x => String.eqb (b_borrowerId x) (b_borrowerId b))
      BORROWERS 0
  with
  | Some idx => assignAt idx b BORROWERS
  | None => (BORROWERS ++ [b])%list
  end.

(** The record [ensureBorrowerExists] creates: no scores (which read as
    zero), a year in school of [null], an empty school name. *)
Definition newBorrower (borrowerId : string) : borrower :=
  {| b_borrowerId := borrowerId;
     borrowerFico := JS.zero;
     cosignerFico := JS.zero;
     yearInSchool := Some YearNull;
     isGraduateStudent := false;
     school := Some "";
     opeid := None;
     degreeType := "" |}.

(** [ensureBorrowerExists(borrowerId)]: the borrower it returns and the
    store it leaves. *)
Definition ensureBorrowerExists (BORROWERS : list borrower)
    (borrowerId : string) : borrower * list borrower :=
  match getBorrowerById BORROWERS borrowerId with
  | Some b => (b, BORROWERS)
  | None =>
      (newBorrower borrowerId, (BORROWERS ++ [newBorrower borrowerId])%list)
  end.

End BorrowerStore.

Module ValuationOverrides.

(** [map.set(key, value)] on a map kept in insertion order. *)
Fixpoint mapSet {A : Type} (key : string) (value : A) (m : dict A) : dict A :=
  match m with
  | [] => [(key, value)]
  | (k, v) :: rest =>
      if String.eqb key k then (k, value) :: rest
      else (k, v) :: mapSet key value rest
  end.

(** [setOverride(loanId, partial)]: the overrides it leaves in the
    map.  An override is the function that spreads its fields over a
    borrower, so spreading [partial] over the existing override composes
    the two. *)
Definition setOverride (overrides : dict (borrower -> borrower))
    (loanId : string) (partial : borrower -> borrower)
  : dict (borrower -> borrower) :=
  let existing := nullish (lookup loanId overrides) (fun b => b) in
  mapSet loanId (fun b => partial (existing b)) overrides.

(** The context after the overrides have been replaced. *)
Definition withOverrides (ctx : context)
    (overrides : dict (borrower -> borrower)) : context :=
  {| SYSTEM_PROFILE := SYSTEM_PROFILE ctx;
     VALUATION_CURVES := VALUATION_CURVES ctx;
     SCHOOLTIERS := SCHOOLTIERS ctx;
     BORROWERS := BORROWERS ctx;
     VALUATION_OVERRIDES := overrides;
     today := today ctx |}.

End ValuationOverrides.

(** Further data for the examples. *)
Module Cases.

Local Open Scope string_scope.

(** A borrower with a score of 700 and a cosigner with 800. *)
Definition cosigned : borrower :=
  {| b_borrowerId := "B-1";
     borrowerFico := Fin 700;
     cosignerFico := Fin 800;
     yearInSchool := Some (YearNum 2);
     isGraduateStudent := false;
     school := None;
     opeid := None;
     degreeType := "STEM" |}.

(** Six hundred over one year at a rate of zero. *)
Definition interestFree : loan :=
  {| loanId := "L-4";
     borrowerId := "B-4";
     principal := Fin 600;
     nominalRate := Fin 0;
     termYears := 1;
     graceYears := 0;
     loanStartDate := Sample.day 2024 1 15;
     purchaseDate := None;
     events := [];
     ownershipLots := [] |}.

(** The one-year loan bought in its third month. *)
Definition boughtInMarch : loan :=
  {| loanId := "L-5";
     borrowerId := "B-5";
     principal := Fin 1000;
     nominalRate := Fin (12 # 100);
     termYears := 1;
     graceYears := 0;
     loanStartDate := Sample.day 2024 1 15;
     purchaseDate := Sample.day 2024 3 10;
     events := [];
     ownershipLots := [("jeff", Fin 1)] |}.

Definition march2024 : monthDate := 12 * 2024 + 2.


Definition growing : RoiViews.roiLoan :=
  {| RoiViews.rl_id := Some "L-2";
     RoiViews.rl_roiSeries :=
       Some [{| RoiViews.entry_date := Some (12 * 2024 + 3);
                RoiViews.entry_roi := Fin (3 # 10);
                RoiViews.entry_invested := Fin 3000 |};
             {| RoiViews.entry_date := Some (12 * 2024);
                RoiViews.entry_roi := Fin (1 # 10);
                RoiViews.entry_invested := Fin 3000 |};
             {| RoiViews.entry_date := Some (12 * 2024 + 1);
                RoiViews.entry_roi := Fin (2 # 10);
                RoiViews.entry_invested := Fin 3000 |}];
     RoiViews.rl_invested := Fin 3000 |}.

End Cases.


(* ================================================================== *)
(** ** Facts about the numbers *)
(* ================================================================== *)

Section NumFacts.

Local Open Scope Q_scope.

Lemma qsign_Gt (q : Q) : JS.qsign q = Gt <-> 0 < q.
Proof.
  unfold JS.qsign, Qlt. destruct q as [n d]; simpl.
  rewrite Z.mul_1_r. rewrite Z.compare_gt_iff. reflexivity.
Qed.

Lemma qsign_Lt (q : Q) : JS.qsign q = Lt <-> q < 0.
Proof.
  unfold JS.qsign, Qlt. destruct q as [n d]; simpl.
  rewrite Z.mul_1_r. rewrite Z.compare_lt_iff. reflexivity.
Qed.

Lemma qsign_Eq (q : Q) : JS.qsign q = Eq <-> q == 0.
Proof.
  unfold JS.qsign, Qeq. destruct q as [n d]; simpl.
  rewrite Z.mul_1_r. rewrite Z.compare_eq_iff. reflexivity.
Qed.

Lemma div_fin_pos (x y : Q) :
  0 < y -> (Fin x / Fin y)%js = Fin (Qred (x / y)).
Proof.
  intros Hy. unfold JS.div. apply qsign_Gt in Hy. now rewrite Hy.
Qed.

Lemma ltb_fin (x y : Q) : (Fin x <? Fin y)%js = true <-> x < y.
Proof.
  unfold JS.ltb. rewrite Qlt_alt. destruct (x ?= y); intuition congruence.
Qed.

Lemma leb_fin (x y : Q) : (Fin x <=? Fin y)%js = true <-> x <= y.
Proof.
  unfold JS.leb. rewrite Qle_alt. destruct (x ?= y); intuition congruence.
Qed.

Lemma leb_fin_false (x y : Q) : (Fin x <=? Fin y)%js = false <-> y < x.
Proof.
  rewrite <- not_true_iff_false, leb_fin.
  split; [apply Qnot_le_lt | apply Qlt_not_le].
Qed.



Lemma Qeq_bool_false (x y : Q) : ~ x == y -> Qeq_bool x y = false.
Proof.
  intros H. apply not_true_iff_false. now rewrite Qeq_bool_iff.
Qed.

Lemma sub_fin (x y : Q) : (Fin x - Fin y)%js = Fin (Qred (x + Qred (- y))).
Proof. reflexivity. Qed.

Lemma div_by_2 (x : Q) : x / 2 == x * (1 # 2).
Proof. field. Qed.

Lemma div_by_12 (x : Q) : x / 12 == x * (1 # 12).
Proof. field. Qed.

Lemma div_by_100 (x : Q) : x / 100 == x * (1 # 100).
Proof. field. Qed.

Lemma div_by_10000 (x : Q) : x / 10000 == x * (1 # 10000).
Proof. field. Qed.

End NumFacts.

(** Arithmetic on finite numbers unfolds to the rational operation under
    a [Qred]; this rewrites the [Qred] away. *)
Ltac unred := repeat rewrite Qred_correct in *.
Ltac js_fin :=
  repeat progress
    (unfold JS.sub, JS.add, JS.neg, JS.mul, JS.zero, JS.one, JS.fin;
     repeat match goal with
       | |- context [(Fin ?x / Fin ?y)%js] =>
           rewrite (div_fin_pos x y) by reflexivity
       end);
  unred;
  repeat first
    [ rewrite div_by_2 | rewrite div_by_12 | rewrite div_by_100
    | rewrite div_by_10000 ].

(* ================================================================== *)
(** ** The internal-rate-of-return solver *)
(* ================================================================== *)

Section IRRSolver.

Local Open Scope Q_scope.

Lemma annualise_within (c : Q) :
  0 <= c <= 1 -> within 0 1200 (Fin c * Fin 12 * Fin 100)%js.
Proof.
  intros Hc. unfold within. js_fin. lra.
Qed.

Lemma bracket_step (a b c : Q) (up : bool) :
  bracketed (Fin a) (Fin b) (Fin c) ->
  bracketed (if up then Fin c else Fin a) (if up then Fin b else Fin c)
    (((if up then Fin c else Fin a) + (if up then Fin b else Fin c))
     / Fin 2)%js.
Proof.
  intros (H0 & H1 & H2 & H3).
  destruct up; unfold bracketed; js_fin; repeat split; lra.
Qed.

(** However the loop is left, it is left with a finite rate: inside
    [0, 1200] once annualised, inside [0, 1] as a monthly midpoint. *)
Lemma bisect_bracketed (iters : nat) (cashFlows : list num) (principal : num) :
  forall min max irr,
    bracketed min max irr ->
    match bisect iters cashFlows principal min max irr with
    | Converged r => within 0 1200 r
    | Exhausted i => within 0 1 i
    end.
Proof.
  induction iters as [|iters IH]; intros min max irr Hb.
  - destruct min, max, irr; simpl in *; try contradiction. lra.
  - destruct min as [a| | |], max as [b| | |], irr as [c| | |];
      try contradiction.
    cbn [bisect].
    destruct (JS.abs (irrNpv cashFlows principal (Fin c)) <? PRECISION)%js.
    + apply annualise_within. destruct Hb as (? & ? & ? & ?). lra.
    + apply IH.
      exact (bracket_step a b c
               (irrNpv cashFlows principal (Fin c) >? JS.zero)%js Hb).
Qed.

Lemma initial_bracket : bracketed JS.zero JS.one (Fin (8 # 1000)).
Proof. unfold bracketed, JS.zero, JS.one. repeat split; lra. Qed.

(** C10.  Whenever [calculateIRR] returns a finite number, the number
    lies between 0 and 1200: the bracket starts at the monthly rates 0
    and 1 and only narrows, so no negative yield is ever returned. *)
Theorem calculateIRR_between_0_and_1200 (cashFlows : list num)
    (principal : num) (q : Q) :
  calculateIRR cashFlows principal = Fin q -> 0 <= q <= 1200.
Proof.
  unfold calculateIRR.
  pose proof (bisect_bracketed MAX_ITER cashFlows principal _ _ _
                initial_bracket) as Hb.
  destruct (bisect MAX_ITER cashFlows principal JS.zero JS.one (Fin (8 # 1000)))
    as [r | i].
  - intros ->. exact Hb.
  - destruct i as [c| | |]; try contradiction.
    apply annualise_within in Hb.
    destruct (Fin c * Fin 12 * Fin 100)%js as [y| | |]; try contradiction.
    cbn [JS.isFinite andb].
    destruct (Fin y >=? Fin (-5))%js; [|discriminate].
    intros [= <-]. exact Hb.
Qed.

(** The theorem on a loan of 100 repaid by 110 after a month, whose
    rate converges to about 120 % a year. *)
Lemma calculateIRR_between_0_and_1200_witness :
  0 <= 314572803 # 2621440 <= 1200.
Proof.
  apply (calculateIRR_between_0_and_1200 [Fin (-100); Fin 110] (Fin 100)).
  vm_compute. reflexivity.
Defined.

(** C2, as stated, fails: cash flows that return half of the principal
    never bring the residual under the precision, the hundred
    iterations run out, and the solver returns the last midpoint
    annualised, a number, where the claim expects NaN. *)
Lemma exhausted_solver_returns_a_number :
  bisect MAX_ITER [Fin (-100); Fin 50] (Fin 100)
    JS.zero JS.one (Fin (8 # 1000))
  = Exhausted (Fin (1 # 158456325028528675187087900672000))
  /\ calculateIRR [Fin (-100); Fin 50] (Fin 100)
     = Fin (3 # 396140812571321687967719751680)
  /\ calculateIRR [Fin (-100); Fin 50] (Fin 100) <> NaN.
Proof.
  split; [vm_compute; reflexivity|].
  split; [vm_compute; reflexivity|].
  vm_compute. discriminate.
Qed.

(** C2, amended.  When the hundred iterations run out, [calculateIRR]
    returns the last midpoint of the bracket times 1200, which is a
    finite rate between 0 and 1200; the guard that would turn it into
    NaN never fires. *)
Theorem exhausted_solver_returns_last_midpoint (cashFlows : list num)
    (principal i : num) :
  bisect MAX_ITER cashFlows principal JS.zero JS.one (Fin (8 # 1000))
  = Exhausted i ->
  calculateIRR cashFlows principal = (i * Fin 12 * Fin 100)%js
  /\ within 0 1200 (calculateIRR cashFlows principal).
Proof.
  intros Hi. unfold calculateIRR.
  pose proof (bisect_bracketed MAX_ITER cashFlows principal _ _ _
                initial_bracket) as Hb.
  rewrite Hi in *.
  destruct i as [c| | |]; try contradiction.
  apply annualise_within in Hb.
  destruct (Fin c * Fin 12 * Fin 100)%js as [y| | |] eqn:Hy; try contradiction.
  cbn [JS.isFinite andb].
  assert (Hge : (Fin y >=? Fin (-5))%js = true).
  { unfold JS.geb. apply leb_fin. unfold within in Hb. lra. }
  rewrite Hge. split; [reflexivity | exact Hb].
Qed.

(** The theorem on cash flows that return half of the principal. *)
Lemma exhausted_solver_returns_last_midpoint_witness :
  calculateIRR [Fin (-100); Fin 50] (Fin 100)
  = (Fin (1 # 158456325028528675187087900672000) * Fin 12 * Fin 100)%js
  /\ within 0 1200 (calculateIRR [Fin (-100); Fin 50] (Fin 100)).
Proof.
  apply (exhausted_solver_returns_last_midpoint
           [Fin (-100); Fin 50] (Fin 100)).
  vm_compute. reflexivity.
Defined.

End IRRSolver.

(* ================================================================== *)
(** ** The risk classifier *)
(* ================================================================== *)

Section RiskClassifier.

Local Open Scope string_scope.





End RiskClassifier.

(* ================================================================== *)
(** ** Valuation of one loan *)
(* ================================================================== *)

Section ValueLoan.

Local Open Scope string_scope.

Variable root12 : Q -> Q.

Lemma or_else_nonpositive (x : num) :
  (x <=? JS.zero)%js = true -> (JS.or_else x JS.zero <=? JS.zero)%js = true.
Proof.
  intros H. unfold JS.or_else. destruct (JS.truthy x); [exact H | reflexivity].
Qed.

(** C9.  A loan whose principal is not positive, or whose rate is not
    positive, or whose computed term is not positive, is returned, not
    thrown, as the "unvalued" result: risk tier UNKNOWN, NaN for the
    net present value, [null] for the discount rate. *)
Theorem valueLoan_unvalued (ctx : context) (l : loan) (b : borrower)
    (riskFreeRate : num) (profile : option assumptions) :
  (principal l <=? JS.zero)%js = true
  \/ (nominalRate l <=? JS.zero)%js = true
  \/ (originalTermMonths l <= 0)%Z ->
  exists v,
    valueLoan root12 ctx l b riskFreeRate profile = Ok v
    /\ riskTier v = "UNKNOWN"
    /\ npv v = NaN
    /\ discountRate v = None.
Proof.
  intros H. exists (unvalued l).
  assert (Hbad : invalidBasics l = true).
  { unfold invalidBasics, originalPrincipal, loanRate.
    destruct H as [H | [H | H]].
    - now rewrite (or_else_nonpositive _ H).
    - rewrite (or_else_nonpositive _ H). now rewrite orb_true_r.
    - apply Z.leb_le in H. rewrite H. now rewrite orb_true_r. }
  unfold valueLoan. rewrite Hbad. repeat split.
Qed.



End ValueLoan.

(** The theorem on a loan with a principal of zero. *)
Lemma valueLoan_unvalued_witness :
  exists v,
    valueLoan approxRoot12 Sample.november2024 Sample.emptyLoan emptyBorrower
      (Fin (4 # 100)) None = Ok v
    /\ riskTier v = "UNKNOWN"%string
    /\ npv v = NaN
    /\ discountRate v = None.
Proof.
  apply (valueLoan_unvalued approxRoot12 Sample.november2024 Sample.emptyLoan
           emptyBorrower (Fin (4 # 100)) None).
  left. reflexivity.
Defined.



(* ================================================================== *)
(** ** The curve interpolators *)
(* ================================================================== *)

Section CurveInterpolator.

Local Open Scope Q_scope.

Lemma rootBisect_unit (x : Q) (steps : nat) :
  0 < x ->
  forall lo hi,
    0 <= lo -> lo <= hi -> hi <= 1 -> x <= hi ^ 12 ->
    0 < rootBisect steps x lo hi <= 1.
Proof.
  intros Hx. induction steps as [|steps IH]; intros lo hi H0 Hlh H1 Hp.
  - cbn [rootBisect]. split; [|exact H1].
    destruct (Qlt_le_dec 0 hi) as [Hpos|Hneg]; [exact Hpos|].
    assert (Hz : hi == 0) by lra.
    rewrite Hz in Hp. change (0 ^ 12) with 0 in Hp. lra.
  - cbn [rootBisect].
    assert (Hmid : Qred ((lo + hi) / 2) == (lo + hi) * (1 # 2))
      by (rewrite Qred_correct; apply div_by_2).
    destruct (Qle_bool x (Qred ((lo + hi) / 2) ^ 12)) eqn:Hc.
    + apply Qle_bool_iff in Hc. apply IH; try assumption; lra.
    + apply IH; try assumption; lra.
Qed.

Lemma approxRoot12_unit (x : Q) :
  0 < x < 1 -> 0 < approxRoot12 x <= 1.
Proof.
  intros [Hpos Hlt]. unfold approxRoot12.
  assert (Hle : Qle_bool x 1 = true) by (apply Qle_bool_iff; lra).
  rewrite Hle. apply rootBisect_unit; lra.
Qed.

Variable root12 : Q -> Q.

Hypothesis root12_unit : forall x, 0 < x < 1 -> 0 < root12 x <= 1.

Lemma monthlyHazard_unit (a : num) :
  percentage a -> unitRate (monthlyHazard root12 a).
Proof.
  destruct a as [p| | |]; try contradiction.
  intros [Hp0 Hp1]. unfold monthlyHazard.
  rewrite (div_fin_pos p 100) by reflexivity.
  unfold JS.one, JS.sub, JS.neg, JS.add, JS.fin.
  set (x := Qred (1 + Qred (- Qred (p / 100)))).
  assert (Hx : x == 1 - p * (1 # 100)).
  { unfold x. unred. rewrite div_by_100. ring. }
  unfold pow12.
  destruct (JS.qsign x) eqn:Hs.
  - apply qsign_Eq in Hs. lra.
  - apply qsign_Lt in Hs. lra.
  - destruct (Qeq_bool x 1) eqn:H1.
    + unfold unitRate, JS.one, JS.fin. unred. lra.
    + assert (Hne : ~ x == 1) by (apply Qeq_bool_neq; exact H1).
      assert (Hr : 0 < root12 x <= 1) by (apply root12_unit; lra).
      unfold unitRate, JS.fin. unred. lra.
Qed.

Lemma lengthBelow_spec (out : list num) (n : Z) :
  lengthBelow out n = true <-> (List.length out < Z.to_nat n)%nat.
Proof. unfold lengthBelow. rewrite Z.ltb_lt. lia. Qed.

Lemma pushMonths_length (m : nat) (x : num) (n : Z) :
  forall out,
    (List.length out <= Z.to_nat n)%nat ->
    (List.length (pushMonths m x n out) <= Z.to_nat n)%nat.
Proof.
  induction m as [|m IH]; intros out Hle; cbn [pushMonths]; [exact Hle|].
  destruct (lengthBelow out n) eqn:Hb; [|exact Hle].
  apply lengthBelow_spec in Hb. apply IH.
  rewrite length_app. cbn [List.length]. lia.
Qed.

Lemma spreadYears_length (annual : list num) (n : Z) :
  forall out,
    (List.length out <= Z.to_nat n)%nat ->
    (List.length (spreadYears root12 annual n out) <= Z.to_nat n)%nat.
Proof.
  induction annual as [|a annual IH]; intros out Hle; cbn [spreadYears];
    [exact Hle|].
  destruct (lengthBelow out n); [|exact Hle].
  apply IH. apply pushMonths_length. exact Hle.
Qed.

Lemma padMonths_length (fuel : nat) (n : Z) :
  forall out,
    (Z.to_nat n - List.length out <= fuel)%nat ->
    (List.length out <= Z.to_nat n)%nat ->
    List.length (padMonths fuel n out) = Z.to_nat n.
Proof.
  induction fuel as [|fuel IH]; intros out Hfuel Hle; cbn [padMonths].
  - lia.
  - destruct (lengthBelow out n) eqn:Hb.
    + apply lengthBelow_spec in Hb.
      apply IH; rewrite length_app; cbn [List.length]; lia.
    + apply not_true_iff_false in Hb. rewrite lengthBelow_spec in Hb. lia.
Qed.

(** The vector [fillMonths] builds has as many entries as months were
    asked for, whatever the curve is. *)
Lemma fillMonths_length (annual : list num) (n : Z) :
  List.length (fillMonths root12 annual n) = Z.to_nat n.
Proof.
  unfold fillMonths.
  pose proof (spreadYears_length annual n [] (Nat.le_0_l _)) as Hle.
  apply padMonths_length; [lia | exact Hle].
Qed.

Lemma pushMonths_Forall (P : num -> Prop) (m : nat) (x : num) (n : Z) :
  P x ->
  forall out, Forall P out -> Forall P (pushMonths m x n out).
Proof.
  intros Hx. induction m as [|m IH]; intros out Hout; cbn [pushMonths];
    [exact Hout|].
  destruct (lengthBelow out n); [|exact Hout].
  apply IH. apply Forall_app. split; [exact Hout | now constructor].
Qed.

Lemma spreadYears_unit (annual : list num) (n : Z) :
  Forall percentage annual ->
  forall out,
    Forall unitRate out -> Forall unitRate (spreadYears root12 annual n out).
Proof.
  induction 1 as [|a annual Ha _ IH]; intros out Hout; cbn [spreadYears];
    [exact Hout|].
  destruct (lengthBelow out n); [|exact Hout].
  apply IH. apply pushMonths_Forall; [|exact Hout].
  apply monthlyHazard_unit. exact Ha.
Qed.

Lemma or_else_last_unit (out : list num) :
  Forall unitRate out -> unitRate (JS.or_else (last out NaN) JS.zero).
Proof.
  assert (Hzero : unitRate JS.zero) by (cbn; lra).
  induction 1 as [|y out Hy Hout IH]; [exact Hzero|].
  destruct out as [|z out].
  - cbn [last]. unfold JS.or_else. destruct (JS.truthy y); assumption.
  - exact IH.
Qed.

Lemma padMonths_unit (fuel : nat) (n : Z) :
  forall out, Forall unitRate out -> Forall unitRate (padMonths fuel n out).
Proof.
  induction fuel as [|fuel IH]; intros out Hout; cbn [padMonths];
    [exact Hout|].
  destruct (lengthBelow out n); [|exact Hout].
  apply IH. apply Forall_app. split; [exact Hout|].
  constructor; [|constructor]. apply or_else_last_unit. exact Hout.
Qed.

Lemma fillMonths_unit (annual : list num) (n : Z) :
  Forall percentage annual -> Forall unitRate (fillMonths root12 annual n).
Proof.
  intros Ha. unfold fillMonths. apply padMonths_unit.
  apply spreadYears_unit; [exact Ha | constructor].
Qed.

(** C5, amended.  For every curve and every month count [n > 0] both
    interpolators return exactly [n] monthly rates.  The rates lie in
    [0, 1) when every annual rate fed to the conversion is a
    percentage in [0, 100): the year-over-year increases of a
    cumulative default curve, the values of a prepayment curve. *)
Theorem interpolation_length_and_range (curve : list num) (n : Z) :
  (0 < n)%Z ->
  Z.of_nat
    (List.length (interpolateCumulativeDefaultsToMonthlyPD root12 curve n))
  = n
  /\ Z.of_nat (List.length (interpolateAnnualCPRToMonthlySMM root12 curve n))
     = n
  /\ (Forall percentage (decumulate None curve) ->
      Forall unitRate
        (interpolateCumulativeDefaultsToMonthlyPD root12 curve n))
  /\ (Forall percentage curve ->
      Forall unitRate (interpolateAnnualCPRToMonthlySMM root12 curve n)).
Proof.
  intros Hn.
  unfold interpolateCumulativeDefaultsToMonthlyPD,
    interpolateAnnualCPRToMonthlySMM.
  rewrite !fillMonths_length.
  repeat split; try lia; apply fillMonths_unit.
Qed.

End CurveInterpolator.

(** The theorem on a cumulative curve of 2, 5 and 9 percent spread over
    thirty months, with the bisection root for [Math.pow]. *)
Lemma interpolation_length_and_range_witness :
  let curve := [Fin 2; Fin 5; Fin 9] in
  Z.of_nat
    (List.length
       (interpolateCumulativeDefaultsToMonthlyPD approxRoot12 curve 30))
  = 30%Z
  /\ Forall unitRate
       (interpolateCumulativeDefaultsToMonthlyPD approxRoot12 curve 30)
  /\ Forall unitRate (interpolateAnnualCPRToMonthlySMM approxRoot12 curve 30).
Proof.
  cbv zeta.
  destruct (interpolation_length_and_range approxRoot12 approxRoot12_unit
              [Fin 2; Fin 5; Fin 9] 30 eq_refl) as (Hlen & _ & Hpd & Hsmm).
  split; [exact Hlen|]. split.
  - apply Hpd. cbn [decumulate].
    repeat constructor; vm_compute; intuition discriminate.
  - apply Hsmm. repeat constructor; vm_compute; intuition discriminate.
Defined.

(** C5, as stated, fails on the range: a cumulative default curve that
    reaches 100 % in its first year gives the monthly rate 1, and one
    that decreases gives a negative monthly rate; the same holds for a
    prepayment curve with a value of 100 or below 0. *)
Lemma interpolated_rates_can_leave_the_unit_interval :
  interpolateCumulativeDefaultsToMonthlyPD approxRoot12 [Fin 100] 3
  = [Fin 1; Fin 1; Fin 1]
  /\ interpolateAnnualCPRToMonthlySMM approxRoot12 [Fin 100] 3
     = [Fin 1; Fin 1; Fin 1]
  /\ ~ Forall unitRate
         (interpolateCumulativeDefaultsToMonthlyPD approxRoot12 [Fin 100] 3)
  /\ (exists q,
        nth 12 (interpolateCumulativeDefaultsToMonthlyPD approxRoot12
                  [Fin 5; Fin 3] 24) NaN = Fin q
        /\ (q < 0)%Q).
Proof.
  split; [reflexivity|]. split; [reflexivity|]. split.
  - intros H. inversion H as [|x rest Hx _]; subst.
    cbn in Hx. destruct Hx as [_ Hx]. revert Hx. apply Qle_not_lt.
    apply Qle_refl.
  - eexists. split; [vm_compute; reflexivity|]. reflexivity.
Qed.

(* ================================================================== *)
(** ** Aggregation over a portfolio *)
(* ================================================================== *)

Section Portfolio.

Local Open Scope string_scope.

(** C1 fails on the code.  A loan with a principal of zero is returned
    "unvalued" by [valueLoan]; [computePortfolioValuation] multiplies
    and adds its NaN figures like any others.  Next to a loan that
    values well, it turns the total net present value and the three
    weighted averages of the portfolio into NaN.  A loan without a
    start date makes the schedule builder throw, and the whole batch
    with it. *)
Theorem unvalued_loan_poisons_portfolio_totals :
  let healthy := Sample.oneYearLoan (Sample.day 2024 1 15) [] in
  let rf := Fin (4 # 100) in
  valueLoan approxRoot12 Sample.november2024 Sample.emptyLoan emptyBorrower
    rf None = Ok (unvalued Sample.emptyLoan)
  /\ (exists p,
        computePortfolioValuation approxRoot12 Sample.november2024 [healthy]
          "jeff" "portfolio" None rf = Ok p
        /\ JS.isFinite (pv_totalNPV p) = true
        /\ JS.isFinite (totalNPVPercent p) = true
        /\ JS.isFinite (totalExpLoss p) = true
        /\ JS.isFinite (totalWAL p) = true
        /\ JS.isFinite (totalIRR p) = true)
  /\ (exists p,
        computePortfolioValuation approxRoot12 Sample.november2024
          [healthy; Sample.emptyLoan] "jeff" "portfolio" None rf = Ok p
        /\ pv_totalNPV p = NaN
        /\ totalNPVPercent p = NaN
        /\ totalExpLoss p = NaN
        /\ totalWAL p = NaN
        /\ totalIRR p = NaN)
  /\ computePortfolioValuation approxRoot12 Sample.november2024
       [healthy; Sample.undatedLoan] "jeff" "portfolio" None rf
     = Throw "Invalid loanStartDate".
Proof.
  cbv zeta. split; [reflexivity|]. split; [|split].
  - eexists. split; [vm_compute; reflexivity|]. repeat split.
  - eexists. split; [vm_compute; reflexivity|]. repeat split.
  - vm_compute. reflexivity.
Qed.

End Portfolio.

(* ================================================================== *)
(** ** The amortisation schedule *)
(* ================================================================== *)

Section ScheduleLoop.

Variable l : loan.
Variable start purchaseMonth : monthDate.

(** A pass that does not break moves on by one month. *)
Lemma monthStep_next (n : Z) (s s' : loopState) :
  snd (monthStep l start purchaseMonth n s) = Some s' ->
  st_i s' = st_i s + 1 /\ st_calendarDate s' = st_calendarDate s + 1.
Proof.
  unfold monthStep.
  destruct (defaultStep l purchaseMonth n s); [discriminate|].
  destruct (0 <? _).
  - destruct (applyPrepayments _ _ _) as [prepaid bal'].
    cbn [snd]. intros [= <-]. cbn. unfold addMonths. split; reflexivity.
  - destruct (_ <? graceMonths l);
      destruct (applyPrepayments _ _ _) as [prepaid bal2];
      cbn [snd]; destruct (bal2 <=? JS.zero)%js; try discriminate;
      intros [= <-]; cbn; unfold addMonths; split; reflexivity.
Qed.

(** The rows of the first [k] passes, when none of them breaks, followed
    by what the loop does from the state they leave. *)
Lemma monthLoop_runMonths (k : nat) :
  forall fuel n s s',
    runMonths l start purchaseMonth k n s = Some s' ->
    (k <= fuel)%nat ->
    st_i s + Z.of_nat k <= totalMonths l ->
    exists rows,
      List.length rows = k
      /\ monthLoop l start purchaseMonth fuel n s
         = rows ++ monthLoop l start purchaseMonth (fuel - k)
                     (n + Z.of_nat k) s'
      /\ st_i s' = st_i s + Z.of_nat k
      /\ st_calendarDate s' = st_calendarDate s + Z.of_nat k.
Proof.
  induction k as [|k IH]; intros fuel n s s' Hrun Hfuel Hi.
  - cbn in Hrun. injection Hrun as <-. exists [].
    rewrite Nat.sub_0_r, !Z.add_0_r. repeat split.
  - destruct fuel as [|fuel]; [lia|].
    cbn [runMonths] in Hrun.
    destruct (snd (monthStep l start purchaseMonth n s)) as [s1|] eqn:Hs;
      [|discriminate].
    destruct (monthStep_next n s s1 Hs) as [Hi1 Hc1].
    destruct (IH fuel (n + 1) s1 s' Hrun ltac:(lia) ltac:(lia))
      as (rows & Hlen & Hloop & Hi' & Hc').
    destruct (monthStep l start purchaseMonth n s) as [r next] eqn:Hstep.
    cbn [snd] in Hs. subst next.
    exists (r :: rows). cbn [monthLoop List.length].
    replace (st_i s <? totalMonths l) with true
      by (symmetry; apply Z.ltb_lt; lia).
    rewrite Hstep, Hloop. cbn [Nat.sub app].
    replace (n + 1 + Z.of_nat k) with (n + Z.of_nat (S k)) by lia.
    repeat split; lia.
Qed.

(** A pass that pushes a row flagged as defaulted or terminal leaves the
    loop. *)
Lemma monthStep_flagged (n : Z) (s : loopState) :
  let '(r, next) := monthStep l start purchaseMonth n s in
  defaulted r = true \/ isTerminal r = true -> next = None.
Proof.
  unfold monthStep.
  destruct (defaultStep l purchaseMonth n s); [reflexivity|].
  destruct (0 <? _).
  - destruct (applyPrepayments _ _ _) as [prepaid bal'].
    cbn. intros [H | H]; discriminate.
  - destruct (_ <? graceMonths l);
      destruct (applyPrepayments _ _ _) as [prepaid bal2];
      cbn; destruct (bal2 <=? JS.zero)%js; try reflexivity;
      intros [H | H]; discriminate.
Qed.

Lemma monthLoop_flagged_last (fuel : nat) :
  forall n s i r,
    nth_error (monthLoop l start purchaseMonth fuel n s) i = Some r ->
    defaulted r = true \/ isTerminal r = true ->
    S i = List.length (monthLoop l start purchaseMonth fuel n s).
Proof.
  induction fuel as [|fuel IH]; intros n s i r Hnth Hflag;
    cbn [monthLoop] in *.
  - destruct i; discriminate.
  - destruct (st_i s <? totalMonths l); [|destruct i; discriminate].
    pose proof (monthStep_flagged n s) as Hstop.
    destruct (monthStep l start purchaseMonth n s) as [r0 next].
    destruct i as [|i].
    + cbn in Hnth. injection Hnth as ->.
      rewrite (Hstop Hflag). reflexivity.
    + cbn [nth_error] in Hnth. cbn [List.length].
      destruct next as [s'|]; [|destruct i; discriminate].
      f_equal. exact (IH _ _ _ _ Hnth Hflag).
Qed.

Lemma markLast_snoc (rows : list amortRow) (r : amortRow) :
  markLast (rows ++ [r]) = rows ++ [setPaidOff r].
Proof.
  induction rows as [|x rows IH]; [reflexivity|].
  cbn [app markLast]. rewrite IH.
  destruct rows; reflexivity.
Qed.

End ScheduleLoop.

Lemma markLast_scheduledPrincipal (rows : list amortRow) :
  map scheduledPrincipal (markLast rows) = map scheduledPrincipal rows.
Proof.
  induction rows as [|r rows IH]; [reflexivity|].
  destruct rows as [|r' rows]; [reflexivity|].
  change (markLast (r :: r' :: rows)) with (r :: markLast (r' :: rows)).
  cbn [map]. cbn [map] in IH. now rewrite IH.
Qed.

Lemma markLast_length (rows : list amortRow) :
  List.length (markLast rows) = List.length rows.
Proof.
  rewrite <- (length_map scheduledPrincipal (markLast rows)).
  rewrite markLast_scheduledPrincipal. apply length_map.
Qed.

Section NumEquiv.

Local Open Scope Q_scope.

Lemma qsign_comp (x y : Q) : x == y -> JS.qsign x = JS.qsign y.
Proof.
  intros H. destruct (JS.qsign y) eqn:Hy.
  - apply qsign_Eq. apply qsign_Eq in Hy. lra.
  - apply qsign_Lt. apply qsign_Lt in Hy. lra.
  - apply qsign_Gt. apply qsign_Gt in Hy. lra.
Qed.

Lemma cents_comp (x y : Q) : x == y -> JS.cents x = JS.cents y.
Proof.
  intros H. unfold JS.cents, JS.round_half_away.
  rewrite (qsign_comp (x * 100) (y * 100)) by (rewrite H; reflexivity).
  destruct (JS.qsign (y * 100)); rewrite H; reflexivity.
Qed.

(** Rounding to cents does not depend on how the fraction is written. *)
Lemma toFixed2_equiv (a b : num) :
  (a == b)%js -> (JS.toFixed2 a == JS.toFixed2 b)%js.
Proof.
  destruct a as [x| | |], b as [y| | |]; cbn [JS.equiv]; try tauto.
  intros H. unfold JS.toFixed2.
  assert (Hb : Qle_bool (10 ^ 21) (Qabs x) = Qle_bool (10 ^ 21) (Qabs y)).
  { destruct (Qle_bool (10 ^ 21) (Qabs y)) eqn:Hy.
    - apply Qle_bool_iff. apply Qle_bool_iff in Hy. now rewrite H.
    - apply not_true_iff_false. apply not_true_iff_false in Hy.
      rewrite Qle_bool_iff in *. now rewrite H. }
  rewrite Hb. destruct (Qle_bool (10 ^ 21) (Qabs y)).
  - exact H.
  - rewrite (cents_comp x y H). cbn [JS.equiv JS.fin]. reflexivity.
Qed.

End NumEquiv.

Section TerminalRows.

Lemma markLast_nth (rows : list amortRow) :
  forall i r,
    nth_error (markLast rows) i = Some r ->
    exists r',
      nth_error rows i = Some r'
      /\ defaulted r' = defaulted r
      /\ isTerminal r' = isTerminal r.
Proof.
  induction rows as [|x rows IH]; intros i r Hnth.
  - destruct i; discriminate.
  - destruct rows as [|y rows].
    + destruct i as [|i]; [|destruct i; discriminate].
      cbn in Hnth. injection Hnth as <-. exists x. repeat split.
    + change (markLast (x :: y :: rows)) with (x :: markLast (y :: rows))
        in Hnth.
      destruct i as [|i].
      * cbn in Hnth. injection Hnth as <-. exists x. repeat split.
      * cbn [nth_error] in *. exact (IH i r Hnth).
Qed.

(** The part of C3 that the code keeps: in every schedule a row
    flagged as defaulted or as terminal is the last row. *)
Theorem flagged_row_is_last (l : loan) (rows : list amortRow) (i : nat)
    (r : amortRow) :
  buildAmortSchedule l = Ok rows ->
  nth_error rows i = Some r ->
  defaulted r = true \/ isTerminal r = true ->
  S i = List.length rows.
Proof.
  unfold buildAmortSchedule.
  destruct (parseISODateLocal (loanStartDate l)) as [start|]; [|discriminate].
  intros [= <-] Hnth Hflag.
  destruct (markLast_nth _ i r Hnth) as (r' & Hnth' & Hd & Ht).
  rewrite <- Hd, <- Ht in Hflag.
  rewrite markLast_length.
  exact (monthLoop_flagged_last l start (purchaseMonthOf l start) _ _ _ _ _
           Hnth' Hflag).
Qed.

End TerminalRows.

Section ScheduleExamples.

(** C3 fails on the code.  A prepayment during a deferral that clears
    the balance leaves a row with balance 0 that is not the last one:
    the deferral branch goes on to the next month without the paid-off
    test of the normal branch, and two more rows follow. *)
Theorem zero_balance_row_in_deferral_is_not_last :
  exists r1 r2 r3,
    buildAmortSchedule Sample.deferredAndPrepaid = Ok [r1; r2; r3]
    /\ isDeferred r1 = true /\ balance r1 = Fin 0
    /\ isDeferred r2 = true /\ balance r2 = Fin 0
    /\ isDeferred r3 = false /\ balance r3 = Fin 0
    /\ isTerminal r3 = true.
Proof.
  do 3 eexists. split; [vm_compute; reflexivity|]. repeat split.
Qed.

(** C7, as stated, fails on the balance: a default without recovery in
    the twelfth month ends the schedule at twelve rows with a terminal,
    defaulted row, but the recovery of zero leaves the balance of that
    row at what was outstanding, 87.97, not at 0. *)
Lemma default_row_keeps_outstanding_balance :
  exists rows,
    buildAmortSchedule Sample.defaultedInMonth12 = Ok rows
    /\ List.length rows = 12%nat
    /\ option_map (fun r => (defaulted r, isTerminal r, balance r))
         (nth_error rows 11)
       = Some (true, true, Fin (8797 # 100))
    /\ Fin (8797 # 100) <> Fin 0.
Proof.
  eexists. split; [vm_compute; reflexivity|].
  repeat split. discriminate.
Qed.

Lemma monthKey_eqb_refl (k : monthKey) : monthKey_eqb k k = true.
Proof. unfold monthKey_eqb. now rewrite !Z.eqb_refl. Qed.

(** C7, amended.  When the only event of a loan is a default without
    recovery dated in its twelfth calendar month, the term covers that
    month and the loan is not paid off during its first eleven months,
    the schedule has exactly twelve rows; the twelfth is terminal and
    defaulted, and its balance is the balance outstanding after the
    eleventh month, rounded to cents: the recovery of zero leaves it
    as it was. *)
Theorem default_in_month_12 (l : loan) (s0 d : isoDate) (s11 : loopState) :
  let start := 12 * iso_year s0 + (iso_month s0 - 1) in
  loanStartDate l = Some s0 ->
  events l = [Default (Some d) JS.zero] ->
  monthKeyFromISO d = monthKeyFromDate (start + 11) ->
  12 <= totalMonths l ->
  runMonths l start (purchaseMonthOf l start) 11 0 (initialState l start)
  = Some s11 ->
  (st_balance s11 >? JS.zero)%js = true ->
  exists rows r12,
    buildAmortSchedule l = Ok (rows ++ [r12])
    /\ List.length rows = 11%nat
    /\ defaulted r12 = true
    /\ isTerminal r12 = true
    /\ (balance r12 == JS.toFixed2 (st_balance s11))%js.
Proof.
  intros start Hstart Hev Hkey Hterm Hrun Hpos.
  unfold buildAmortSchedule. rewrite Hstart. cbn [parseISODateLocal].
  fold start.
  destruct (monthLoop_runMonths l start (purchaseMonthOf l start) 11
              (Z.to_nat (totalMonths l)) 0 (initialState l start) s11 Hrun
              ltac:(lia) ltac:(cbn; lia))
    as (rows & Hlen & Hloop & Hi & Hcal).
  cbn [initialState st_i st_calendarDate] in Hi, Hcal.
  destruct (Z.to_nat (totalMonths l) - 11)%nat as [|fuel] eqn:Hfuel; [lia|].
  cbn [monthLoop] in Hloop.
  replace (st_i s11 <? totalMonths l) with true in Hloop
    by (symmetry; apply Z.ltb_lt; lia).
  assert (Hd : defaultStep l (purchaseMonthOf l start) (0 + Z.of_nat 11) s11
               = Some (defaultRow (purchaseMonthOf l start) (0 + Z.of_nat 11)
                         s11 (JS.min (st_balance s11) JS.zero)
                         (st_balance s11 - JS.min (st_balance s11) JS.zero)%js)).
  { unfold defaultStep. rewrite Hev. cbn [defaultEvent].
    rewrite Hkey, Hcal.
    change (start + Z.of_nat 11) with (start + 11).
    now rewrite monthKey_eqb_refl. }
  unfold monthStep in Hloop. rewrite Hd in Hloop.
  eexists rows, _. rewrite Hloop, markLast_snoc.
  split; [reflexivity|]. split; [exact Hlen|].
  split; [reflexivity|]. split; [reflexivity|].
  cbn [setPaidOff defaultRow balance].
  apply toFixed2_equiv.
  unfold JS.gtb in Hpos.
  destruct (st_balance s11) as [q| | |]; try discriminate.
  - apply ltb_fin in Hpos.
    assert (Hmin : JS.min (Fin q) JS.zero = JS.zero).
    { unfold JS.min, JS.zero.
      replace (Fin q <=? Fin 0)%js with false; [reflexivity|].
      symmetry. apply leb_fin_false. exact Hpos. }
    rewrite Hmin. unfold JS.equiv. js_fin. ring.
  - reflexivity.
Qed.

(** The theorem on a one-year loan that defaults in its twelfth
    month. *)
Lemma default_in_month_12_witness :
  exists rows r12,
    buildAmortSchedule Sample.defaultedInMonth12 = Ok (rows ++ [r12])
    /\ List.length rows = 11%nat
    /\ defaulted r12 = true
    /\ isTerminal r12 = true
    /\ (balance r12 == Fin (8797 # 100))%js.
Proof.
  destruct (runMonths Sample.defaultedInMonth12 (12 * 2024 + 0)
              (12 * 2024 + 0) 11 0
              (initialState Sample.defaultedInMonth12 (12 * 2024 + 0)))
    as [s11|] eqn:Hrun; [|vm_compute in Hrun; discriminate].
  assert (Hpos : (st_balance s11 >? JS.zero)%js = true).
  { vm_compute in Hrun. injection Hrun as <-. reflexivity. }
  assert (Hbal : JS.toFixed2 (st_balance s11) = Fin (8797 # 100)).
  { vm_compute in Hrun. injection Hrun as <-. reflexivity. }
  rewrite <- Hbal.
  exact (default_in_month_12 Sample.defaultedInMonth12
           {| iso_year := 2024; iso_month := 1; iso_day := 15 |}
           {| iso_year := 2024; iso_month := 12; iso_day := 5 |}
           s11 eq_refl eq_refl eq_refl ltac:(vm_compute; discriminate)
           Hrun Hpos).
Defined.

End ScheduleExamples.

(* ================================================================== *)
(** ** The level payment amortises the principal *)
(* ================================================================== *)

Section AmortisationAlgebra.

Local Open Scope Q_scope.

Variables P r q a p : Q.

Hypothesis P_pos : 0 < P.
Hypothesis r_pos : 0 < r.
Hypothesis q_def : q == 1 + r.
Hypothesis a_gt_1 : 1 < a.
Hypothesis p_def : p == P * r / (1 - / a).

Lemma closedBalance_start : closedBalance P a 1 == P.
Proof. unfold closedBalance. field. lra. Qed.

Lemma closedBalance_end : closedBalance P a a == 0.
Proof. unfold closedBalance. field. lra. Qed.

(** One payment: the balance grows by the interest and falls by the
    payment. *)
Lemma closedBalance_step (x : Q) :
  closedBalance P a (q * x) == closedBalance P a x * (1 + r) - p.
Proof.
  unfold closedBalance. rewrite p_def, q_def. field. split; lra.
Qed.

Lemma closedBalance_comp (x x' : Q) :
  x == x' -> closedBalance P a x == closedBalance P a x'.
Proof. intros H. unfold closedBalance. now rewrite H. Qed.


Lemma closedBalance_pos (x : Q) : x < a -> 0 < closedBalance P a x.
Proof.
  intros Hx. unfold closedBalance.
  apply Qlt_shift_div_l; [lra|]. rewrite Qmult_0_l.
  apply Qmult_lt_0_compat; lra.
Qed.

End AmortisationAlgebra.

Section Rounding.

Local Open Scope Q_scope.




End Rounding.

Section LevelPayment.

Local Open Scope Q_scope.

Variable l : loan.
Variables P R : Q.
Variables start purchaseMonth : monthDate.

Hypothesis principal_P : principal l = Fin P.
Hypothesis P_pos : 0 < P.
Hypothesis rate_R : nominalRate l = Fin R.
Hypothesis R_pos : 0 < R.
Hypothesis term_pos : (0 < termYears l)%Z.
Hypothesis no_grace : graceYears l = 0%Z.
Hypothesis no_events : events l = [].

Lemma monthlyRateOf_pos : 0 < monthlyRateOf R.
Proof. unfold monthlyRateOf. unred. rewrite div_by_12. lra. Qed.

Lemma growth_base : Qred (1 + monthlyRateOf R) == 1 + monthlyRateOf R.
Proof. apply Qred_correct. Qed.

Lemma growth_base_gt_1 : 1 < Qred (1 + monthlyRateOf R).
Proof. rewrite growth_base. pose proof monthlyRateOf_pos. lra. Qed.

Lemma growthOver_0 : growthOver R 0 == 1.
Proof. reflexivity. Qed.

Lemma growthOver_succ (k : Z) :
  growthOver R (k + 1) == Qred (1 + monthlyRateOf R) * growthOver R k.
Proof.
  unfold growthOver. pose proof growth_base_gt_1.
  rewrite Qpower_plus by lra. rewrite Qpower_1_r. ring.
Qed.

Lemma growthOver_lt (k n : Z) : (k < n)%Z -> growthOver R k < growthOver R n.
Proof.
  intros H. apply Qpower_lt_compat_l; [exact H | apply growth_base_gt_1].
Qed.


Lemma repaymentMonths_pos : (0 < repaymentMonths l)%Z.
Proof. unfold repaymentMonths. lia. Qed.


Lemma term_growth_gt_1 : 1 < growthOver R (repaymentMonths l).
Proof.
  rewrite <- growthOver_0. apply growthOver_lt. apply repaymentMonths_pos.
Qed.

Lemma monthlyRate_value : monthlyRate l = Fin (monthlyRateOf R).
Proof.
  unfold monthlyRate. rewrite rate_R. now rewrite div_fin_pos.
Qed.

(** The level payment of the schedule is the one of the amortisation
    formula, [P r / (1 - (1 + r)^-n)]. *)
Lemma originalMonthlyPayment_value :
  exists p,
    originalMonthlyPayment l = Fin p
    /\ p == P * monthlyRateOf R / (1 - / growthOver R (repaymentMonths l)).
Proof.
  unfold originalMonthlyPayment.
  pose proof repaymentMonths_pos as Hn. pose proof term_growth_gt_1 as Ha.
  pose proof growth_base_gt_1 as Hq.
  replace (0 <? repaymentMonths l)%Z with true by (symmetry; now apply Z.ltb_lt).
  rewrite monthlyRate_value, principal_P.
  unfold JS.one, JS.add, JS.mul, JS.fin. unfold JS.powZ.
  replace (Qeq_bool (Qred (1 + monthlyRateOf R)) 0) with false
    by (symmetry; apply Qeq_bool_false; lra).
  rewrite andb_false_r. unfold JS.sub, JS.neg, JS.add, JS.fin.
  fold (growthOver R (- repaymentMonths l)).
  assert (Hinv : growthOver R (- repaymentMonths l)
                 == / growthOver R (repaymentMonths l))
    by (unfold growthOver; apply Qpower_opp).
  assert (Hlt : / growthOver R (repaymentMonths l) < 1).
  { apply Qlt_shift_inv_r; lra. }
  rewrite div_fin_pos by (unred; rewrite Hinv; lra).
  eexists. split; [reflexivity|]. unred. rewrite Hinv. reflexivity.
Qed.

Lemma months_since (c s : monthDate) :
  ((getFullYear c - getFullYear s) * 12 + (getMonth c - getMonth s) = c - s)%Z.
Proof.
  unfold getFullYear, getMonth.
  pose proof (Z.div_mod c 12 ltac:(lia)). pose proof (Z.div_mod s 12 ltac:(lia)).
  lia.
Qed.




End LevelPayment.

Section ScheduledPrincipal.

Local Open Scope Q_scope.





End ScheduledPrincipal.
(* ================================================================== *)
(** ** The risk classifier, continued *)
(* ================================================================== *)

Section RiskTiers.

Local Open Scope string_scope.
Local Open Scope Q_scope.

Lemma geb_fin (x y : Q) : (Fin x >=? Fin y)%js = Qle_bool y x.
Proof.
  unfold JS.geb, JS.leb.
  destruct (Qle_bool y x) eqn:H.
  - apply Qle_bool_iff in H. destruct (y ?= x) eqn:Hc; try reflexivity.
    apply Qgt_alt in Hc. lra.
  - destruct (y ?= x) eqn:Hc; try reflexivity.
    + apply Qeq_alt in Hc. assert (Hle : y <= x) by lra.
      apply Qle_bool_iff in Hle. congruence.
    + apply Qlt_alt in Hc. assert (Hle : y <= x) by lra.
      apply Qle_bool_iff in Hle. congruence.
Qed.

Lemma Qle_bool_comp (t x y : Q) : x == y -> Qle_bool t x = Qle_bool t y.
Proof.
  intros H. destruct (Qle_bool t y) eqn:Hy.
  - apply Qle_bool_iff. apply Qle_bool_iff in Hy. lra.
  - apply not_true_iff_false. apply not_true_iff_false in Hy.
    rewrite Qle_bool_iff in *. lra.
Qed.

(** The blended score of two finite scores, as the source computes
    it. *)
Lemma blendedFico_value (f c : Q) :
  exists q,
    JS.max (Fin f)
      (Fin (7 # 10) * Fin f + (JS.one - Fin (7 # 10)) * Fin c)%js = Fin q
    /\ q == blendedFicoOf f c.
Proof.
  unfold blendedFicoOf. cbv zeta.
  assert (Hsum : exists x,
             (Fin (7 # 10) * Fin f + (JS.one - Fin (7 # 10)) * Fin c)%js = Fin x
             /\ x == (7 # 10) * f + (3 # 10) * c).
  { eexists. split; [reflexivity|]. unred. lra. }
  destruct Hsum as (x & -> & Hx).
  unfold JS.max.
  change (Fin f <=? Fin x)%js with (Fin x >=? Fin f)%js.
  rewrite geb_fin. rewrite (Qle_bool_comp f _ _ Hx).
  destruct (Qle_bool f _); eexists; split; try reflexivity. exact Hx.
Qed.

(** X1.  The decision table of [deriveRiskTier] for finite scores.  The
    blended score alone decides, except between 760 and 780, where the
    year in school does; the cut at 680 between the bands C and D has
    no effect, and the promotion of a HIGH tier at 720 or more never
    applies, since such a score is never classified HIGH. *)
Theorem deriveRiskTier_table (b : borrower) (a : assumptions) (f c : Q) :
  borrowerFico b = Fin f ->
  cosignerFico b = Fin c ->
  deriveRiskTier b a =
    let s := blendedFicoOf f c in
    if Qle_bool 780 s then "LOW"
    else if Qle_bool 760 s
    then (if (3 <=? effectiveYear (yearInSchool b))%Z then "LOW" else "MEDIUM")
    else if Qle_bool 720 s then "MEDIUM"
    else if Qle_bool 640 s then "HIGH"
    else "VERY_HIGH".
Proof.
  intros Hf Hc. unfold deriveRiskTier. rewrite Hf, Hc.
  destruct (blendedFico_value f c) as (q & -> & Hq).
  cbv zeta. unfold deriveFicoBand. rewrite !geb_fin.
  rewrite <- !(Qle_bool_comp _ _ _ Hq).
  assert (H1 : Qle_bool 780 q = true -> Qle_bool 760 q = true).
  { rewrite !Qle_bool_iff. lra. }
  assert (H2 : Qle_bool 760 q = true -> Qle_bool 720 q = true).
  { rewrite !Qle_bool_iff. lra. }
  assert (H3 : Qle_bool 720 q = true -> Qle_bool 680 q = true).
  { rewrite !Qle_bool_iff. lra. }
  assert (H4 : Qle_bool 680 q = true -> Qle_bool 640 q = true).
  { rewrite !Qle_bool_iff. lra. }
  destruct (Qle_bool 780 q), (Qle_bool 760 q), (Qle_bool 720 q),
    (Qle_bool 680 q), (Qle_bool 640 q);
    try (specialize (H1 eq_refl)); try (specialize (H2 eq_refl));
    try (specialize (H3 eq_refl)); try (specialize (H4 eq_refl));
    try discriminate;
    cbn; try reflexivity;
    destruct (3 <=? effectiveYear (yearInSchool b))%Z; reflexivity.
Qed.



End RiskTiers.

(* ================================================================== *)
(** ** The rate-of-return solver, continued *)
(* ================================================================== *)

Section IRRSolverMore.

Local Open Scope Q_scope.

Lemma bisect_tail (iters : nat) (c0 c0' : num) (cfs : list num) (P : num) :
  forall min max irr,
    bisect iters (c0 :: cfs) P min max irr
    = bisect iters (c0' :: cfs) P min max irr.
Proof.
  induction iters as [|iters IH]; intros min max irr; [reflexivity|].
  cbn [bisect].
  change (irrNpv (c0 :: cfs) P irr) with (irrNpv (c0' :: cfs) P irr).
  destruct (JS.abs (irrNpv (c0' :: cfs) P irr) <? PRECISION)%js;
    [reflexivity | apply IH].
Qed.

(** X4.  [calculateIRR] never reads the first cash flow: the outlay it
    discounts against is its second argument, so two lists that differ
    in their first entry only have the same rate. *)
Theorem calculateIRR_ignores_first_flow (c0 c0' : num) (cfs : list num)
    (P : num) :
  calculateIRR (c0 :: cfs) P = calculateIRR (c0' :: cfs) P.
Proof.
  unfold calculateIRR. now rewrite (bisect_tail MAX_ITER c0 c0').
Qed.

(** X5.  A rate that the bisection returns from inside its loop is a
    monthly rate of the bracket times 1200 at which the net present
    value of the flows, against the principal, is within the precision
    of one millionth. *)
Theorem converged_rate_has_small_residual (iters : nat)
    (cashFlows : list num) (P : num) :
  forall min max irr r,
    bracketed min max irr ->
    bisect iters cashFlows P min max irr = Converged r ->
    exists i,
      within 0 1 i
      /\ r = (i * Fin 12 * Fin 100)%js
      /\ (JS.abs (irrNpv cashFlows P i) <? PRECISION)%js = true.
Proof.
  induction iters as [|iters IH]; intros min max irr r Hb; [discriminate|].
  destruct min as [a| | |], max as [b| | |], irr as [c| | |];
    try contradiction.
  cbn [bisect].
  destruct (JS.abs (irrNpv cashFlows P (Fin c)) <? PRECISION)%js eqn:Hres.
  - intros [= <-]. exists (Fin c). repeat split; try assumption;
      destruct Hb as (? & ? & ? & ?); lra.
  - apply IH.
    exact (bracket_step a b c (irrNpv cashFlows P (Fin c) >? JS.zero)%js Hb).
Qed.


End IRRSolverMore.

(** The theorem on a loan of 1000 repaid by 1008 after a month: the
    first guess of 0.8 % a month is exact. *)
Lemma converged_rate_has_small_residual_witness :
  exists i,
    within 0 1 i
    /\ Fin (48 # 5) = (i * Fin 12 * Fin 100)%js
    /\ (JS.abs (irrNpv [Fin (-1000); Fin 1008] (Fin 1000) i) <? PRECISION)%js
       = true.
Proof.
  apply (converged_rate_has_small_residual MAX_ITER
           [Fin (-1000); Fin 1008] (Fin 1000)
           JS.zero JS.one (Fin (8 # 1000)) (Fin (48 # 5)) initial_bracket).
  vm_compute. reflexivity.
Defined.

(* ================================================================== *)
(** ** Valuation of one loan, continued *)
(* ================================================================== *)

Section ValueLoanMore.

Local Open Scope string_scope.

Variable root12 : Q -> Q.


Lemma max_zero_nonneg (x : num) :
  JS.isFinite x = true ->
  exists e, JS.max JS.zero x = Fin e /\ (0 <= e)%Q.
Proof.
  destruct x as [x| | |]; try discriminate. intros _.
  change (JS.max JS.zero (Fin x))
    with (if (Fin 0 <=? Fin x)%js then Fin x else Fin 0).
  destruct (Fin 0 <=? Fin x)%js eqn:Hx.
  - exists x. split; [reflexivity|]. now apply leb_fin in Hx.
  - exists 0%Q. split; [reflexivity | lra].
Qed.





End ValueLoanMore.

(** The table on a score of 700 with a cosigner at 800: the blend of
    730 is a MEDIUM risk. *)
Lemma deriveRiskTier_table_witness :
  deriveRiskTier Cases.cosigned SYSTEM_DEFAULTS = "MEDIUM"%string.
Proof.
  exact (deriveRiskTier_table Cases.cosigned SYSTEM_DEFAULTS 700 800
           eq_refl eq_refl).
Defined.


(* ================================================================== *)
(** ** Aggregation over a portfolio, continued *)
(* ================================================================== *)

Section PortfolioMore.

Local Open Scope string_scope.

Variable root12 : Q -> Q.

(** X8.  With an ownership mode other than "portfolio", "market" and
    "all", [computePortfolioValuation] values no loan at all: whatever
    the loans and the state of the engine, it returns, without
    throwing, an empty list and totals of zero. *)
Theorem unknown_ownership_mode_values_nothing (ctx : context)
    (loans : list loan) (currentUser ownershipMode : string)
    (activeProfile : option assumptions) (riskFreeRate : num) :
  ownershipMode <> "portfolio" ->
  ownershipMode <> "market" ->
  ownershipMode <> "all" ->
  computePortfolioValuation root12 ctx loans currentUser ownershipMode
    activeProfile riskFreeRate
  = Ok {| valuedLoans := [];
          pv_totalPrincipal := JS.zero;
          pv_totalNPV := JS.zero;
          totalNPVPercent := JS.zero;
          totalExpLoss := JS.zero;
          totalWAL := JS.zero;
          totalIRR := JS.zero |}.
Proof.
  intros Hp Hm Ha. unfold computePortfolioValuation.
  assert (Hnone : filter (ownershipFilter currentUser ownershipMode) loans = []).
  { induction loans as [|l rest IH]; [reflexivity|].
    cbn [filter]. unfold ownershipFilter at 1.
    apply String.eqb_neq in Hp, Hm, Ha. rewrite Hp, Hm, Ha. exact IH. }
  rewrite Hnone. reflexivity.
Qed.

Lemma valueAll_rows (ctx : context) (currentUser ownershipMode : string)
    (activeProfile : option assumptions) (riskFreeRate : num)
    (loans : list loan) :
  forall t vs t',
    valueAll root12 ctx currentUser ownershipMode activeProfile riskFreeRate
      t loans = Ok (vs, t') ->
    map vl_loan vs = map withFallbackRate loans
    /\ totalPrincipal t'
       = fold_left JS.add (map displayPrincipal vs) (totalPrincipal t)
    /\ totalNPV t' = fold_left JS.add (map displayNPV vs) (totalNPV t).
Proof.
  induction loans as [|l rest IH]; intros t vs t'; cbn [valueAll].
  - intros [= <- <-]. repeat split.
  - destruct (valueOne _ _ _ _ _ _ t l) as [[v t1]|] eqn:Hone; [|discriminate].
    destruct (valueAll _ _ _ _ _ _ t1 rest) as [[vs' t2]|] eqn:Hall;
      [|discriminate].
    intros [= <- <-].
    destruct (IH _ _ _ Hall) as (Hl & Hp & Hn).
    unfold valueOne in Hone.
    destruct (valueLoan _ _ _ _ _ _) as [val|]; [|discriminate].
    destruct (buildAmortSchedule _) as [amort|]; [|discriminate].
    injection Hone as <- <-.
    cbn [map fold_left vl_loan displayPrincipal displayNPV].
    cbn [totalPrincipal totalNPV] in Hp, Hn.
    rewrite Hl, Hp, Hn. repeat split.
Qed.

(** X9.  What [computePortfolioValuation] returns is consistent: the
    valued loans are the loans that pass the ownership filter, in their
    order, each with a rate that is not zero or negative, and the total
    principal and the total net present value are the sums of the
    shares shown on the rows. *)
Theorem portfolio_rows_add_up (ctx : context) (loans : list loan)
    (currentUser ownershipMode : string)
    (activeProfile : option assumptions) (riskFreeRate : num)
    (pv : portfolioValuation) :
  computePortfolioValuation root12 ctx loans currentUser ownershipMode
    activeProfile riskFreeRate = Ok pv ->
  map vl_loan (valuedLoans pv)
  = map withFallbackRate
      (filter (ownershipFilter currentUser ownershipMode) loans)
  /\ Forall (fun vl => (nominalRate (vl_loan vl) <=? JS.zero)%js = false)
       (valuedLoans pv)
  /\ pv_totalPrincipal pv
     = fold_left JS.add (map displayPrincipal (valuedLoans pv)) JS.zero
  /\ pv_totalNPV pv
     = fold_left JS.add (map displayNPV (valuedLoans pv)) JS.zero.
Proof.
  unfold computePortfolioValuation.
  destruct (valueAll _ _ _ _ _ _ noTotals _) as [[vs t]|] eqn:Hall;
    [|discriminate].
  intros [= <-]. cbn [valuedLoans pv_totalPrincipal pv_totalNPV].
  destruct (valueAll_rows _ _ _ _ _ _ _ _ _ Hall) as (Hl & Hp & Hn).
  split; [exact Hl|]. split; [|split; assumption].
  assert (Hrate : Forall (fun x => (nominalRate x <=? JS.zero)%js = false)
                    (map vl_loan vs)).
  { rewrite Hl. apply Forall_map, Forall_forall. intros l _.
    cbn [withFallbackRate nominalRate].
    destruct (nominalRate l <=? JS.zero)%js eqn:Hr; [reflexivity | exact Hr]. }
  now apply Forall_map in Hrate.
Qed.

End PortfolioMore.

(** The theorem on the mode "mine". *)
Lemma unknown_ownership_mode_values_nothing_witness :
  computePortfolioValuation approxRoot12 Sample.november2024
    [Sample.oneYearLoan (Sample.day 2024 1 15) []] "jeff" "mine" None
    (Fin (4 # 100))
  = Ok {| valuedLoans := [];
          pv_totalPrincipal := JS.zero;
          pv_totalNPV := JS.zero;
          totalNPVPercent := JS.zero;
          totalExpLoss := JS.zero;
          totalWAL := JS.zero;
          totalIRR := JS.zero |}.
Proof.
  apply (unknown_ownership_mode_values_nothing approxRoot12
           Sample.november2024
           [Sample.oneYearLoan (Sample.day 2024 1 15) []] "jeff" "mine" None
           (Fin (4 # 100)));
    discriminate.
Defined.

(** The theorem on the portfolio of "jeff" holding half of the one-year
    loan. *)
Lemma portfolio_rows_add_up_witness :
  exists pv,
    computePortfolioValuation approxRoot12 Sample.november2024
      [Sample.oneYearLoan (Sample.day 2024 1 15) []] "jeff" "portfolio" None
      (Fin (4 # 100)) = Ok pv
    /\ map vl_loan (valuedLoans pv)
       = map withFallbackRate
           (filter (ownershipFilter "jeff" "portfolio")
              [Sample.oneYearLoan (Sample.day 2024 1 15) []])
    /\ Forall (fun vl => (nominalRate (vl_loan vl) <=? JS.zero)%js = false)
         (valuedLoans pv)
    /\ pv_totalPrincipal pv
       = fold_left JS.add (map displayPrincipal (valuedLoans pv)) JS.zero
    /\ pv_totalNPV pv
       = fold_left JS.add (map displayNPV (valuedLoans pv)) JS.zero.
Proof.
  eexists. split; [vm_compute; reflexivity|].
  apply (portfolio_rows_add_up approxRoot12 Sample.november2024
           [Sample.oneYearLoan (Sample.day 2024 1 15) []] "jeff" "portfolio"
           None (Fin (4 # 100))).
  vm_compute. reflexivity.
Defined.

(* ================================================================== *)
(** ** The amortisation schedule, continued *)
(* ================================================================== *)

Section ScheduleShape.

Variable l : loan.
Variable start purchaseMonth : monthDate.

(** The row of one pass carries the counters of the pass. *)
Lemma monthStep_row (n : Z) (s : loopState) :
  let r := fst (monthStep l start purchaseMonth n s) in
  monthIndex r = n + 1
  /\ loanDate r = st_calendarDate s
  /\ contractualMonth r = st_i s + 1
  /\ isOwned r = (purchaseMonth <=? st_calendarDate s).
Proof.
  unfold monthStep, defaultStep.
  destruct (defaultEvent (events l)) as [[k rec]|].
  - destruct (monthKey_eqb _ k); [cbn; repeat split|].
    destruct (0 <? _).
    + destruct (applyPrepayments _ _ _) as [prepaid bal']. cbn. repeat split.
    + destruct (_ <? graceMonths l);
        destruct (applyPrepayments _ _ _) as [prepaid bal2];
        cbn; repeat split.
  - destruct (0 <? _).
    + destruct (applyPrepayments _ _ _) as [prepaid bal']. cbn. repeat split.
    + destruct (_ <? graceMonths l);
        destruct (applyPrepayments _ _ _) as [prepaid bal2];
        cbn; repeat split.
Qed.

Lemma monthLoop_rows (fuel : nat) :
  forall n s k r,
    nth_error (monthLoop l start purchaseMonth fuel n s) k = Some r ->
    monthIndex r = n + Z.of_nat k + 1
    /\ loanDate r = st_calendarDate s + Z.of_nat k
    /\ contractualMonth r = st_i s + Z.of_nat k + 1
    /\ isOwned r = (purchaseMonth <=? st_calendarDate s + Z.of_nat k).
Proof.
  induction fuel as [|fuel IH]; intros n s k r; cbn [monthLoop].
  - destruct k; discriminate.
  - destruct (st_i s <? totalMonths l); [|destruct k; discriminate].
    pose proof (monthStep_row n s) as Hrow.
    pose proof (monthStep_next l start purchaseMonth n s) as Hnext.
    destruct (monthStep l start purchaseMonth n s) as [r0 next].
    cbn [fst snd] in Hrow, Hnext.
    destruct k as [|k].
    + intros [= <-]. rewrite !Z.add_0_r. exact Hrow.
    + cbn [nth_error].
      destruct next as [s'|]; [|destruct k; discriminate].
      destruct (Hnext s' eq_refl) as [Hi Hc].
      intros Hnth. destruct (IH _ _ _ _ Hnth) as (H1 & H2 & H3 & H4).
      rewrite Hi, Hc in *.
      repeat split; try lia.
      rewrite H4. f_equal. lia.
Qed.


End ScheduleShape.

(** The closing pass changes nothing but the paid-off flag of the last
    row. *)
Lemma markLast_rows (rows : list amortRow) :
  forall i r,
    nth_error (markLast rows) i = Some r ->
    exists r',
      nth_error rows i = Some r'
      /\ ((r = r' /\ (S i < List.length rows)%nat)
          \/ (r = setPaidOff r' /\ S i = List.length rows)).
Proof.
  induction rows as [|x rows IH]; intros i r Hnth.
  - destruct i; discriminate.
  - destruct rows as [|y rows].
    + destruct i as [|i]; [|destruct i; discriminate].
      cbn in Hnth. injection Hnth as <-. exists x.
      split; [reflexivity|]. right. split; reflexivity.
    + change (markLast (x :: y :: rows)) with (x :: markLast (y :: rows))
        in Hnth.
      destruct i as [|i].
      * cbn in Hnth. injection Hnth as <-. exists x.
        split; [reflexivity|]. left. split; [reflexivity|].
        cbn [List.length]. lia.
      * cbn [nth_error] in *.
        destruct (IH i r Hnth) as (r' & Hr' & [[-> Hlen] | [-> Hlen]]).
        -- exists r'. split; [exact Hr'|]. left.
           split; [reflexivity|]. cbn [List.length] in *. lia.
        -- exists r'. split; [exact Hr'|]. right.
           split; [reflexivity|]. cbn [List.length] in *. lia.
Qed.

Section PaidOff.

Variable l : loan.
Variable start purchaseMonth : monthDate.

(** Inside the loop only a normal month that ends with nothing left is
    flagged as paid off, and it is flagged as terminal with it. *)
Lemma monthStep_paid_off (n : Z) (s : loopState) :
  isPaidOff (fst (monthStep l start purchaseMonth n s)) = true ->
  isTerminal (fst (monthStep l start purchaseMonth n s)) = true.
Proof.
  unfold monthStep.
  destruct (defaultStep l purchaseMonth n s) as [r0|] eqn:Hd.
  { unfold defaultStep in Hd.
    destruct (defaultEvent (events l)) as [[k rec]|]; [|discriminate].
    destruct (monthKey_eqb _ k); [|discriminate].
    injection Hd as <-. cbn. discriminate. }
  destruct (0 <? _).
  - destruct (applyPrepayments _ _ _) as [prepaid bal']. cbn. discriminate.
  - destruct (_ <? graceMonths l);
      destruct (applyPrepayments _ _ _) as [prepaid bal2];
      cbn; intros H; exact H.
Qed.

Lemma monthLoop_paid_off (fuel : nat) :
  forall n s k r,
    nth_error (monthLoop l start purchaseMonth fuel n s) k = Some r ->
    isPaidOff r = true -> isTerminal r = true.
Proof.
  induction fuel as [|fuel IH]; intros n s k r; cbn [monthLoop].
  - destruct k; discriminate.
  - destruct (st_i s <? totalMonths l); [|destruct k; discriminate].
    pose proof (monthStep_paid_off n s) as Hrow.
    destruct (monthStep l start purchaseMonth n s) as [r0 next].
    cbn [fst] in Hrow.
    destruct k as [|k].
    + intros [= <-]. exact Hrow.
    + cbn [nth_error].
      destruct next as [s'|]; [|destruct k; discriminate].
      apply IH.
Qed.

End PaidOff.

Section ScheduleShapeTheorems.

(** X10.  A row flagged as paid off is the last row of its schedule, and
    the balance it shows is zero or less. *)
Theorem paid_off_row_is_last (l : loan) (rows : list amortRow) (i : nat)
    (r : amortRow) :
  buildAmortSchedule l = Ok rows ->
  nth_error rows i = Some r ->
  isPaidOff r = true ->
  S i = List.length rows /\ (balance r <=? JS.zero)%js = true.
Proof.
  unfold buildAmortSchedule.
  destruct (parseISODateLocal (loanStartDate l)) as [start|]; [|discriminate].
  intros [= <-] Hnth Hpaid.
  destruct (markLast_rows _ i r Hnth) as (r' & Hr' & [[-> Hlen] | [-> Hlen]]).
  - pose proof (monthLoop_paid_off l start _ _ _ _ _ _ Hr' Hpaid) as Hterm.
    pose proof (monthLoop_flagged_last l start _ _ _ _ _ _ Hr'
                  (or_intror Hterm)).
    lia.
  - rewrite markLast_length. split; [exact Hlen | exact Hpaid].
Qed.

(** X11.  The rows of a schedule follow the calendar: the row at position
    [k], counted from zero, has the month index and the contractual
    month [k + 1], is dated [k] months after the month of the start
    date, and is owned exactly when that month is not before the month
    of the purchase (the start month when the loan has no purchase
    date).  Ownership therefore never ends once it has begun. *)
Theorem schedule_rows_follow_the_calendar (l : loan) (rows : list amortRow)
    (start : monthDate) (k : nat) (r : amortRow) :
  parseISODateLocal (loanStartDate l) = Some start ->
  buildAmortSchedule l = Ok rows ->
  nth_error rows k = Some r ->
  monthIndex r = Z.of_nat k + 1
  /\ contractualMonth r = Z.of_nat k + 1
  /\ loanDate r = addMonths start (Z.of_nat k)
  /\ isOwned r = (purchaseMonthOf l start <=? addMonths start (Z.of_nat k))
  /\ forall j r',
       nth_error rows j = Some r' -> (k <= j)%nat ->
       isOwned r = true -> isOwned r' = true.
Proof.
  intros Hstart. unfold buildAmortSchedule. rewrite Hstart.
  intros [= <-] Hnth.
  assert (Hrow : forall i x,
             nth_error
               (markLast
                  (monthLoop l start (purchaseMonthOf l start)
                     (Z.to_nat (totalMonths l)) 0 (initialState l start)))
               i = Some x ->
             monthIndex x = Z.of_nat i + 1
             /\ contractualMonth x = Z.of_nat i + 1
             /\ loanDate x = addMonths start (Z.of_nat i)
             /\ isOwned x
                = (purchaseMonthOf l start <=? addMonths start (Z.of_nat i))).
  { intros i x Hx.
    destruct (markLast_rows _ i x Hx) as (x' & Hx' & Hsame).
    destruct (monthLoop_rows l start _ _ _ _ _ _ Hx') as (H1 & H2 & H3 & H4).
    cbn [initialState st_calendarDate st_i] in *. unfold addMonths.
    destruct Hsame as [[-> _] | [-> _]]; cbn [setPaidOff monthIndex
      contractualMonth loanDate isOwned]; repeat split; try lia; exact H4. }
  destruct (Hrow k r Hnth) as (H1 & H2 & H3 & H4).
  repeat split; try assumption.
  intros j r' Hj Hkj Howned.
  destruct (Hrow j r' Hj) as (_ & _ & _ & H4').
  rewrite H4 in Howned. rewrite H4'. unfold addMonths in *.
  apply Z.leb_le. apply Z.leb_le in Howned. lia.
Qed.


End ScheduleShapeTheorems.

Section Balances.

Local Open Scope Q_scope.

Lemma applyPrepayments_conserves (amts : list num) :
  forall p b,
    0 <= p -> 0 <= b ->
    exists p' b',
      applyPrepayments amts (Fin p) (Fin b) = (Fin p', Fin b')
      /\ p' + b' == p + b
      /\ p <= p'
      /\ 0 <= b' <= b.
Proof.
  induction amts as [|e amts IH]; intros p b Hp Hb; cbn [applyPrepayments].
  - exists p, b. repeat split; lra.
  - set (amt := JS.or_else e JS.zero).
    destruct (amt >? JS.zero)%js eqn:Hamt.
    2:{ exact (IH p b Hp Hb). }
    assert (Happlied : exists x, JS.min (Fin b) amt = Fin x /\ 0 <= x <= b).
    { destruct amt as [x| | |]; try discriminate.
      - unfold JS.gtb, JS.zero in Hamt. apply ltb_fin in Hamt.
        change (JS.min (Fin b) (Fin x))
          with (if (Fin b <=? Fin x)%js then Fin b else Fin x).
        destruct (Fin b <=? Fin x)%js eqn:Hbx.
        + exists b. split; [reflexivity | lra].
        + apply leb_fin_false in Hbx. exists x. split; [reflexivity | lra].
      - exists b. split; [reflexivity | lra]. }
    destruct Happlied as (x & -> & Hx).
    rewrite sub_fin. unfold JS.add, JS.fin.
    destruct (IH (Qred (p + x)) (Qred (b + Qred (- x))))
      as (p' & b' & Heq & Hsum & Hp' & Hb');
      [unred; lra | unred; lra |].
    exists p', b'. split; [exact Heq|].
    unred. repeat split; lra.
Qed.


Lemma toFixed2_nonneg (b : Q) :
  0 <= b -> exists c, JS.toFixed2 (Fin b) = Fin c /\ 0 <= c.
Proof.
  intros Hb. unfold JS.toFixed2.
  destruct (Qle_bool (10 ^ 21) (Qabs b)).
  - exists b. split; [reflexivity | exact Hb].
  - eexists. split; [reflexivity|]. unred. rewrite div_by_100.
    assert (Hc : (0 <= JS.cents b)%Z).
    { unfold JS.cents, JS.round_half_away.
      destruct (JS.qsign (b * 100)) eqn:Hs.
      - apply Qfloor_resp_le with (x := 0). lra.
      - apply qsign_Lt in Hs. lra.
      - apply Qfloor_resp_le with (x := 0). lra. }
    assert (0 <= inject_Z (JS.cents b)).
    { change 0 with (inject_Z 0). now rewrite <- Zle_Qle. }
    lra.
Qed.

Lemma nonneg_row_balance (b : Q) :
  0 <= b -> (JS.zero <=? JS.toFixed2 (Fin b))%js = true.
Proof.
  intros Hb. destruct (toFixed2_nonneg b Hb) as (c & -> & Hc).
  now apply leb_fin.
Qed.

Lemma defaultEvent_number (evs : list loanEvent) (k : monthKey) (rec : num) :
  defaultEvent evs = Some (k, rec) -> rec <> NaN.
Proof.
  induction evs as [|e evs IH]; [discriminate|].
  destruct e as [d amt | d m | [d|] x]; cbn [defaultEvent]; try exact IH.
  intros [= _ <-]. unfold JS.or_else.
  destruct x as [x| | |]; cbn; try discriminate.
  destruct (negb (Qeq_bool x 0)); discriminate.
Qed.

Lemma default_balance (b : Q) (rec : num) :
  0 <= b -> rec <> NaN ->
  (JS.zero <=? JS.toFixed2 (Fin b - JS.min (Fin b) rec))%js = true.
Proof.
  intros Hb Hrec. destruct rec as [x| | |]; try contradiction.
  - change (JS.min (Fin b) (Fin x))
      with (if (Fin b <=? Fin x)%js then Fin b else Fin x).
    destruct (Fin b <=? Fin x)%js eqn:Hbx;
      rewrite sub_fin; apply nonneg_row_balance; unred; try lra.
    apply leb_fin_false in Hbx. lra.
  - change (JS.min (Fin b) PInf) with (Fin b).
    rewrite sub_fin. apply nonneg_row_balance. unred. lra.
  - reflexivity.
Qed.

Lemma payment_balance (b p i : Q) :
  0 <= b ->
  exists b',
    (let sched := JS.min (Fin p - Fin i)%js (Fin b) in
     let left := JS.max JS.zero (Fin b - sched)%js in
     if (left <=? Fin (1 # 100))%js then JS.zero else left) = Fin b'
    /\ 0 <= b'.
Proof.
  intros Hb. cbv zeta. rewrite sub_fin.
  set (x := Qred (p + Qred (- i))).
  change (JS.min (Fin x) (Fin b))
    with (if (Fin x <=? Fin b)%js then Fin x else Fin b).
  assert (Hleft : exists y,
             (Fin b - (if (Fin x <=? Fin b)%js then Fin x else Fin b))%js
             = Fin y /\ 0 <= y).
  { destruct (Fin x <=? Fin b)%js eqn:Hx; rewrite sub_fin;
      eexists; (split; [reflexivity|]); unred; try lra.
    apply leb_fin in Hx. lra. }
  destruct Hleft as (y & -> & Hy).
  destruct (max_zero_nonneg (Fin y) eq_refl) as (e & -> & He).
  destruct (Fin e <=? Fin (1 # 100))%js.
  - exists 0. split; [reflexivity | lra].
  - exists e. split; [reflexivity | exact He].
Qed.

Section BalanceInvariant.

Variable l : loan.
Variables R : Q.
Variables start purchaseMonth : monthDate.

Hypothesis rate_R : nominalRate l = Fin R.
Hypothesis R_nonneg : 0 <= R.
Hypothesis payment_finite : JS.isFinite (originalMonthlyPayment l) = true.

(** One pass keeps the balance finite and not negative, and pushes a
    row whose balance is not negative. *)
Lemma monthStep_balance (n : Z) (s : loopState) (b : Q) :
  st_balance s = Fin b -> 0 <= b ->
  (JS.zero <=? balance (fst (monthStep l start purchaseMonth n s)))%js = true
  /\ forall s',
       snd (monthStep l start purchaseMonth n s) = Some s' ->
       exists b', st_balance s' = Fin b' /\ 0 <= b'.
Proof.
  intros Hs Hb.
  assert (Hrate : exists r, monthlyRate l = Fin r /\ 0 <= r).
  { unfold monthlyRate. rewrite rate_R. rewrite div_fin_pos by reflexivity.
    eexists. split; [reflexivity|]. unred. rewrite div_by_12. lra. }
  destruct Hrate as (r & Hr & Hr0).
  assert (Hbr : 0 <= b * r) by (apply Qmult_le_0_compat; assumption).
  destruct (originalMonthlyPayment l) as [p| | |] eqn:Hp; try discriminate.
  unfold monthStep.
  destruct (defaultStep l purchaseMonth n s) as [r0|] eqn:Hd.
  { cbn [fst snd]. split; [|discriminate].
    unfold defaultStep in Hd.
    destruct (defaultEvent (events l)) as [[k rec]|] eqn:Hev; [|discriminate].
    destruct (monthKey_eqb _ k); [|discriminate].
    injection Hd as <-. cbn [defaultRow balance].
    rewrite Hs. apply default_balance; [exact Hb|].
    exact (defaultEvent_number _ _ _ Hev). }
  rewrite Hs, Hr. cbv zeta.
  set (dr := if _ && _ then _ else st_deferralRemaining s).
  set (dt := if _ && _ then _ else st_deferralTotal s).
  set (amts := prepayMap _ _).
  unfold JS.zero, JS.add, JS.mul, JS.fin.
  destruct (0 <? dr)%Z.
  - destruct (applyPrepayments_conserves amts 0 (Qred (b + Qred (b * r))))
      as (p' & b' & Heq & _ & _ & Hb'); [lra | unred; lra |].
    rewrite Heq. cbn [fst snd deferralRow balance].
    split; [apply nonneg_row_balance; lra|].
    intros s' [= <-]. cbn [st_balance]. exists b'. split; [reflexivity | lra].
  - destruct (_ <? graceMonths l)%Z.
    + destruct (applyPrepayments_conserves amts 0 (Qred (b + Qred (b * r))))
        as (p' & b' & Heq & _ & _ & Hb'); [lra | unred; lra |].
      rewrite Heq. cbn [fst snd normalRow balance].
      split; [apply nonneg_row_balance; lra|].
      destruct (Fin b' <=? Fin 0)%js; [discriminate|].
      intros s' [= <-]. cbn [st_balance]. exists b'. split; [reflexivity | lra].
    + destruct (payment_balance b p (Qred (b * r)) Hb) as (b1 & Hb1 & Hb1').
      cbv zeta in Hb1. unfold JS.zero in Hb1. rewrite Hp, Hb1.
      destruct (applyPrepayments_conserves amts 0 b1)
        as (p' & b' & Heq & _ & _ & Hb'); [lra | lra |].
      rewrite Heq. cbn [fst snd normalRow balance].
      split; [apply nonneg_row_balance; lra|].
      destruct (Fin b' <=? Fin 0)%js; [discriminate|].
      intros s' [= <-]. cbn [st_balance]. exists b'. split; [reflexivity | lra].
Qed.

Lemma monthLoop_balances (fuel : nat) :
  forall n s b,
    st_balance s = Fin b -> 0 <= b ->
    Forall (fun r => (JS.zero <=? balance r)%js = true)
      (monthLoop l start purchaseMonth fuel n s).
Proof.
  induction fuel as [|fuel IH]; intros n s b Hs Hb; cbn [monthLoop];
    [constructor|].
  destruct (st_i s <? totalMonths l)%Z; [|constructor].
  destruct (monthStep_balance n s b Hs Hb) as [Hrow Hnext].
  destruct (monthStep l start purchaseMonth n s) as [r0 next].
  cbn [fst snd] in Hrow, Hnext.
  constructor; [exact Hrow|].
  destruct next as [s'|]; [|constructor].
  destruct (Hnext s' eq_refl) as (b' & Hs' & Hb').
  exact (IH _ _ _ Hs' Hb').
Qed.

End BalanceInvariant.

Lemma built_balances (l : loan) (P R : Q)
    (rows : list amortRow) :
  principal l = Fin P -> 0 <= P ->
  nominalRate l = Fin R -> 0 < R ->
  buildAmortSchedule l = Ok rows ->
  Forall (fun r => (JS.zero <=? balance r)%js = true) rows.
Proof.
  intros HP HP0 HR HR0. unfold buildAmortSchedule.
  destruct (parseISODateLocal (loanStartDate l)) as [start|]; [|discriminate].
  intros [= <-].
  assert (Hpay : JS.isFinite (originalMonthlyPayment l) = true).
  { destruct (Z.ltb_spec 0 (termYears l)) as [Hterm | Hterm].
    - destruct (originalMonthlyPayment_value l P R HP HR HR0 Hterm)
        as (p & -> & _). reflexivity.
    - unfold originalMonthlyPayment, repaymentMonths.
      replace (0 <? termYears l * 12)%Z with false
        by (symmetry; apply Z.ltb_ge; lia).
      reflexivity. }
  assert (Hinit : exists b,
             st_balance (initialState l start) = Fin b /\ 0 <= b).
  { cbn [initialState st_balance]. rewrite HP. unfold JS.or_else.
    destruct (JS.truthy (Fin P)).
    - now exists P.
    - exists 0. split; [reflexivity | lra]. }
  destruct Hinit as (b & Hb & Hb0).
  pose proof (monthLoop_balances l R start (purchaseMonthOf l start) HR
                ltac:(lra) Hpay (Z.to_nat (totalMonths l)) 0 _ b Hb Hb0)
    as Hall.
  apply Forall_forall. intros r Hin.
  apply In_nth_error in Hin. destruct Hin as [i Hi].
  destruct (markLast_rows _ i r Hi) as (r' & Hr' & Hsame).
  apply nth_error_In in Hr'.
  rewrite Forall_forall in Hall. specialize (Hall r' Hr').
  destruct Hsame as [[-> _] | [-> _]]; exact Hall.
Qed.



End Balances.

Section ZeroRate.

Variable l : loan.
Variables start purchaseMonth : monthDate.

Hypothesis rate_0 : nominalRate l = Fin 0.
Hypothesis term_pos : 0 < termYears l.
Hypothesis no_grace : graceYears l = 0.
Hypothesis no_events : events l = [].

Lemma zero_rate_payment : originalMonthlyPayment l = NaN.
Proof.
  unfold originalMonthlyPayment, repaymentMonths, monthlyRate.
  replace (0 <? termYears l * 12) with true by (symmetry; apply Z.ltb_lt; lia).
  rewrite rate_0.
  change (Fin 0 / Fin 12)%js with (Fin 0).
  change (JS.one + Fin 0)%js with (Fin 1).
  unfold JS.powZ. change (Qeq_bool 1 0) with false. rewrite andb_false_r.
  unfold JS.fin.
  rewrite (Qred_complete _ _ (Qpower_1 (- (termYears l * 12)))).
  change (JS.one - Fin (Qred 1))%js with (Fin 0).
  destruct (principal l) as [x| | |]; try reflexivity.
  unfold JS.mul, JS.fin, JS.div.
  assert (Hx : JS.qsign (Qred (x * 0)) = Eq).
  { apply qsign_Eq. rewrite Qred_correct. ring. }
  rewrite Hx. reflexivity.
Qed.

(** A month of repayment of a loan at a rate of zero, whatever the
    balance it starts from. *)
Lemma zero_rate_step (n : Z) (s : loopState) :
  st_deferralRemaining s = 0 ->
  start <= st_calendarDate s ->
  exists r s',
    monthStep l start purchaseMonth n s = (r, Some s')
    /\ payment r = NaN /\ scheduledPrincipal r = NaN /\ balance r = NaN
    /\ st_deferralRemaining s' = 0
    /\ st_calendarDate s' = st_calendarDate s + 1
    /\ st_i s' = st_i s + 1.
Proof.
  intros Hd Hc. unfold monthStep, defaultStep.
  rewrite no_events, Hd, zero_rate_payment.
  cbn [defaultEvent deferralStartMap prepayMap applyPrepayments].
  cbn [Z.eqb negb andb Z.ltb Z.compare].
  rewrite months_since. unfold graceMonths. rewrite no_grace.
  replace (st_calendarDate s - start <? 0 * 12) with false
    by (symmetry; apply Z.ltb_ge; lia).
  assert (Hsched : forall x y, JS.min (NaN - x)%js y = NaN).
  { intros x y. destruct x, y; reflexivity. }
  assert (Hleft : forall x, JS.max JS.zero (x - NaN)%js = NaN).
  { intros x. destruct x; reflexivity. }
  rewrite Hsched, Hleft. cbn [JS.leb].
  eexists. eexists. split; [reflexivity|].
  cbn. unfold addMonths. repeat split.
Qed.

Lemma zero_rate_loop (fuel : nat) :
  forall n s,
    st_deferralRemaining s = 0 ->
    start <= st_calendarDate s ->
    st_i s + Z.of_nat fuel <= totalMonths l ->
    let rows := monthLoop l start purchaseMonth fuel n s in
    List.length rows = fuel
    /\ Forall
         (fun r => payment r = NaN /\ scheduledPrincipal r = NaN
                   /\ balance r = NaN) rows.
Proof.
  induction fuel as [|fuel IH]; intros n s Hd Hc Hi; cbn [monthLoop].
  - split; [reflexivity | constructor].
  - replace (st_i s <? totalMonths l) with true
      by (symmetry; apply Z.ltb_lt; lia).
    destruct (zero_rate_step n s Hd Hc)
      as (r & s' & -> & Hp & Hsp & Hb & Hd' & Hc' & Hi').
    destruct (IH (n + 1) s' Hd' ltac:(lia) ltac:(lia)) as [Hlen Hall].
    cbv zeta in Hlen, Hall. cbn [List.length].
    split; [now rewrite Hlen|]. constructor; [now repeat split | exact Hall].
Qed.

End ZeroRate.

(** X15.  A loan at a rate of zero gets a schedule without numbers: the
    level payment is the quotient of zero by zero, so with a positive
    term, no grace period and no events every month of the term has a
    row, and the payment, the scheduled principal and the balance of
    every row are NaN, whatever the principal. *)
Theorem zero_rate_schedule_is_not_a_number (l : loan) (d : isoDate) :
  nominalRate l = Fin 0 ->
  0 < termYears l ->
  graceYears l = 0 ->
  events l = [] ->
  loanStartDate l = Some d ->
  exists rows,
    buildAmortSchedule l = Ok rows
    /\ List.length rows = Z.to_nat (12 * termYears l)
    /\ Forall
         (fun r => payment r = NaN /\ scheduledPrincipal r = NaN
                   /\ balance r = NaN) rows.
Proof.
  intros Hrate Hterm Hgrace Hev Hstart.
  unfold buildAmortSchedule. rewrite Hstart. cbn [parseISODateLocal].
  set (start := 12 * iso_year d + (iso_month d - 1)).
  eexists. split; [reflexivity|].
  assert (Htotal : totalMonths l = 12 * termYears l).
  { unfold totalMonths, graceMonths, repaymentMonths. lia. }
  destruct (zero_rate_loop l start (purchaseMonthOf l start) Hrate Hterm
              Hgrace Hev (Z.to_nat (totalMonths l)) 0 (initialState l start)
              eq_refl ltac:(cbn; lia) ltac:(cbn; lia)) as [Hlen Hall].
  cbv zeta in Hlen, Hall.
  split; [rewrite markLast_length, Hlen, Htotal; reflexivity|].
  apply Forall_forall. intros r Hin.
  apply In_nth_error in Hin. destruct Hin as [i Hi].
  destruct (markLast_rows _ i r Hi) as (r' & Hr' & Hsame).
  apply nth_error_In in Hr'.
  rewrite Forall_forall in Hall. specialize (Hall r' Hr').
  destruct Hsame as [[-> _] | [-> _]]; exact Hall.
Qed.

(* ================================================================== *)
(** ** The level payment of the valuation *)
(* ================================================================== *)

Section MonthlyPayment.

Local Open Scope Q_scope.

Variables P R : Q.
Variable n : Z.

Hypothesis P_pos : 0 < P.
Hypothesis R_pos : 0 < R.
Hypothesis n_pos : (0 < n)%Z.

Lemma growth_gt_1 : 1 < growthOver R n.
Proof.
  change 1 with (growthOver R 0) at 1. now apply growthOver_lt.
Qed.

(** [computeMonthlyPayment] is the payment of the amortisation formula,
    [P r / (1 - (1 + r)^-n)]. *)
Lemma computeMonthlyPayment_value :
  exists p,
    computeMonthlyPayment (Fin P) (Fin R) n = Fin p
    /\ p == P * monthlyRateOf R / (1 - / growthOver R n).
Proof.
  unfold computeMonthlyPayment. cbv zeta.
  pose proof growth_gt_1 as Ha.
  pose proof (growth_base R) as Hq.
  pose proof (monthlyRateOf_pos R R_pos) as Hr.
  rewrite div_fin_pos by reflexivity. fold (monthlyRateOf R).
  unfold JS.one, JS.add, JS.mul, JS.fin. unfold JS.powZ.
  replace (Qeq_bool (Qred (1 + monthlyRateOf R)) 0) with false
    by (symmetry; apply Qeq_bool_false; lra).
  rewrite andb_false_r. unfold JS.sub, JS.neg, JS.add, JS.fin.
  fold (growthOver R (- n)).
  assert (Hinv : growthOver R (- n) == / growthOver R n)
    by (unfold growthOver; apply Qpower_opp).
  assert (Hlt : / growthOver R n < 1).
  { apply Qlt_shift_inv_r; lra. }
  rewrite div_fin_pos by (unred; rewrite Hinv; lra).
  eexists. split; [reflexivity|]. unred. rewrite Hinv. reflexivity.
Qed.

Lemma balanceAfter_comp (r r' p p' : Q) (k : nat) :
  r == r' -> p == p' -> balanceAfter P r p k == balanceAfter P r' p' k.
Proof.
  intros Hr Hp. induction k as [|k IH]; cbn [balanceAfter]; [reflexivity|].
  rewrite IH, Hr, Hp. reflexivity.
Qed.

Lemma balanceAfter_closed (p : Q) (k : nat) :
  p == P * monthlyRateOf R / (1 - / growthOver R n) ->
  balanceAfter P (monthlyRateOf R) p k
  == closedBalance P (growthOver R n) (growthOver R (Z.of_nat k)).
Proof.
  intros Hp. pose proof growth_gt_1 as Ha.
  induction k as [|k IH]; cbn [balanceAfter].
  - change (growthOver R (Z.of_nat 0)) with 1.
    symmetry. now apply closedBalance_start.
  - rewrite IH.
    rewrite <- (closedBalance_step P (monthlyRateOf R)
                  (Qred (1 + monthlyRateOf R)) (growthOver R n) p
                  (growth_base R) Ha Hp).
    apply closedBalance_comp.
    rewrite Nat2Z.inj_succ. unfold Z.succ.
    symmetry. now apply growthOver_succ.
Qed.

(** X16.  For a positive debt, a positive rate and a positive number of
    months, [computeMonthlyPayment] is a finite payment that exceeds the
    interest of the first month and that, paid every month, brings the
    debt to exactly zero with the last payment.  (The arithmetic is
    exact here; no amount is rounded to cents.) *)
Theorem level_payment_amortises :
  exists p,
    computeMonthlyPayment (Fin P) (Fin R) n = Fin p
    /\ P * (R / 12) < p
    /\ balanceAfter P (R / 12) p (Z.to_nat n) == 0.
Proof.
  destruct computeMonthlyPayment_value as (p & Hval & Hp).
  pose proof growth_gt_1 as Ha.
  pose proof (monthlyRateOf_pos R R_pos) as Hr.
  assert (Hrate : R / 12 == monthlyRateOf R)
    by (unfold monthlyRateOf; now rewrite Qred_correct).
  exists p. split; [exact Hval|]. split.
  - rewrite Hrate, Hp.
    assert (Hinv : 0 < / growthOver R n) by (apply Qinv_lt_0_compat; lra).
    assert (Hlt : / growthOver R n < 1) by (apply Qlt_shift_inv_r; lra).
    apply Qlt_shift_div_l; [lra|].
    assert (0 < P * monthlyRateOf R) by (apply Qmult_lt_0_compat; lra).
    nra.
  - rewrite (balanceAfter_comp (R / 12) (monthlyRateOf R) p p
               (Z.to_nat n) Hrate (Qeq_refl p)).
    rewrite (balanceAfter_closed p (Z.to_nat n) Hp).
    rewrite Z2Nat.id by lia. now apply closedBalance_end.
Qed.

End MonthlyPayment.

(** The theorem on 1000 at 12 % over two months. *)
Lemma level_payment_amortises_witness :
  exists p,
    computeMonthlyPayment (Fin 1000) (Fin (12 # 100)) 2 = Fin p
    /\ (1000 * ((12 # 100) / 12) < p)%Q
    /\ (balanceAfter 1000 ((12 # 100) / 12) p 2 == 0)%Q.
Proof.
  apply (level_payment_amortises 1000 (12 # 100) 2); reflexivity.
Defined.

(** The theorem on the fourth row of a loan bought in its third
    month. *)
Lemma schedule_rows_follow_the_calendar_witness :
  exists rows r,
    buildAmortSchedule Cases.boughtInMarch = Ok rows
    /\ nth_error rows 3 = Some r
    /\ monthIndex r = Z.of_nat 3 + 1
    /\ contractualMonth r = Z.of_nat 3 + 1
    /\ loanDate r = addMonths (12 * 2024) (Z.of_nat 3)
    /\ isOwned r
       = (purchaseMonthOf Cases.boughtInMarch (12 * 2024)
          <=? addMonths (12 * 2024) (Z.of_nat 3))
    /\ forall j r',
         nth_error rows j = Some r' -> (3 <= j)%nat ->
         isOwned r = true -> isOwned r' = true.
Proof.
  eexists. eexists.
  split; [vm_compute; reflexivity|].
  split; [vm_compute; reflexivity|].
  apply (schedule_rows_follow_the_calendar Cases.boughtInMarch);
    vm_compute; reflexivity.
Defined.


(** The theorem on the last row of the one-year loan. *)
Lemma paid_off_row_is_last_witness :
  exists rows r,
    buildAmortSchedule Cases.boughtInMarch = Ok rows
    /\ nth_error rows 11 = Some r
    /\ isPaidOff r = true
    /\ 12%nat = List.length rows /\ (balance r <=? JS.zero)%js = true.
Proof.
  eexists. eexists.
  split; [vm_compute; reflexivity|].
  split; [vm_compute; reflexivity|].
  split; [vm_compute; reflexivity|].
  apply (paid_off_row_is_last Cases.boughtInMarch); vm_compute; reflexivity.
Defined.

(** The theorem on the same last row, which is flagged as terminal. *)
Lemma flagged_row_is_last_witness :
  exists rows r,
    buildAmortSchedule Cases.boughtInMarch = Ok rows
    /\ nth_error rows 11 = Some r
    /\ 12%nat = List.length rows.
Proof.
  eexists. eexists.
  split; [vm_compute; reflexivity|].
  split; [vm_compute; reflexivity|].
  eapply (flagged_row_is_last Cases.boughtInMarch _ 11);
    [vm_compute; reflexivity | vm_compute; reflexivity
     | right; vm_compute; reflexivity].
Defined.



(** The theorem on six hundred over one year at a rate of zero. *)
Lemma zero_rate_schedule_is_not_a_number_witness :
  exists rows,
    buildAmortSchedule Cases.interestFree = Ok rows
    /\ List.length rows = Z.to_nat (12 * termYears Cases.interestFree)
    /\ Forall
         (fun r => payment r = NaN /\ scheduledPrincipal r = NaN
                   /\ balance r = NaN) rows.
Proof.
  apply (zero_rate_schedule_is_not_a_number Cases.interestFree
           {| iso_year := 2024; iso_month := 1; iso_day := 15 |});
    reflexivity.
Defined.

(* ================================================================== *)
(** ** The curve interpolators in closed form *)
(* ================================================================== *)

Section InterpolatorClosedForm.

Variable root12 : Q -> Q.

Lemma lengthBelow_nat (out : list num) (n : Z) :
  lengthBelow out n = (List.length out <? Z.to_nat n)%nat.
Proof.
  unfold lengthBelow.
  destruct (Z.ltb_spec (Z.of_nat (List.length out)) n);
    destruct (Nat.ltb_spec (List.length out) (Z.to_nat n)); try reflexivity;
    lia.
Qed.

Lemma firstn_repeat_min (x : num) (k m : nat) :
  firstn k (repeat x m) = repeat x (Nat.min k m).
Proof.
  revert m. induction k as [|k IH]; intros m; [reflexivity|].
  destruct m as [|m]; [reflexivity|]. cbn. now rewrite IH.
Qed.

Lemma pushMonths_closed (m : nat) (x : num) (n : Z) :
  forall out,
    pushMonths m x n out
    = out ++ repeat x (Nat.min (Z.to_nat n - List.length out) m).
Proof.
  induction m as [|m IH]; intros out; cbn [pushMonths].
  - rewrite Nat.min_0_r. cbn. now rewrite app_nil_r.
  - rewrite lengthBelow_nat.
    destruct (Nat.ltb_spec (List.length out) (Z.to_nat n)) as [Hlt | Hge].
    + rewrite IH, length_app, <- app_assoc. cbn [List.length app].
      f_equal.
      replace (Nat.min (Z.to_nat n - List.length out) (S m))
        with (S (Nat.min (Z.to_nat n - (List.length out + 1)) m)) by lia.
      reflexivity.
    + replace (Z.to_nat n - List.length out)%nat with O by lia.
      cbn. now rewrite app_nil_r.
Qed.

Lemma spreadYears_closed (annual : list num) (n : Z) :
  forall out,
    spreadYears root12 annual n out
    = out ++ firstn (Z.to_nat n - List.length out)
               (flat_map (fun a => repeat (monthlyHazard root12 a) 12) annual).
Proof.
  induction annual as [|a rest IH]; intros out; cbn [spreadYears flat_map].
  - rewrite firstn_nil. now rewrite app_nil_r.
  - rewrite lengthBelow_nat.
    destruct (Nat.ltb_spec (List.length out) (Z.to_nat n)) as [Hlt | Hge].
    + rewrite IH, pushMonths_closed, <- app_assoc. f_equal.
      rewrite firstn_app, firstn_repeat_min. f_equal.
      rewrite length_app, !repeat_length. f_equal. lia.
    + replace (Z.to_nat n - List.length out)%nat with O by lia.
      cbn. now rewrite app_nil_r.
Qed.

Lemma or_else_idempotent (x : num) :
  JS.or_else (JS.or_else x JS.zero) JS.zero = JS.or_else x JS.zero.
Proof.
  unfold JS.or_else. destruct (JS.truthy x) eqn:Hx; [now rewrite Hx|].
  reflexivity.
Qed.

Lemma padMonths_closed (fuel : nat) (n : Z) :
  forall out,
    padMonths fuel n out
    = out ++ repeat (JS.or_else (last out NaN) JS.zero)
               (Nat.min (Z.to_nat n - List.length out) fuel).
Proof.
  induction fuel as [|fuel IH]; intros out; cbn [padMonths].
  - rewrite Nat.min_0_r. cbn. now rewrite app_nil_r.
  - rewrite lengthBelow_nat.
    destruct (Nat.ltb_spec (List.length out) (Z.to_nat n)) as [Hlt | Hge].
    + rewrite IH, length_app, <- app_assoc. cbn [List.length app].
      rewrite last_last, or_else_idempotent. f_equal.
      replace (Nat.min (Z.to_nat n - List.length out) (S fuel))
        with (S (Nat.min (Z.to_nat n - (List.length out + 1)) fuel)) by lia.
      reflexivity.
    + replace (Z.to_nat n - List.length out)%nat with O by lia.
      cbn. now rewrite app_nil_r.
Qed.

Lemma fillMonths_closed (annual : list num) (n : Z) :
  fillMonths root12 annual n
  = let body :=
      firstn (Z.to_nat n)
        (flat_map (fun a => repeat (monthlyHazard root12 a) 12) annual) in
    body ++ repeat (JS.or_else (last body NaN) JS.zero)
              (Z.to_nat n - List.length body).
Proof.
  unfold fillMonths. cbv zeta.
  rewrite spreadYears_closed. cbn [app List.length].
  rewrite Nat.sub_0_r, padMonths_closed. f_equal. f_equal.
  set (body := firstn _ _).
  assert (List.length body <= Z.to_nat n)%nat by apply firstn_le_length.
  lia.
Qed.

(** X17.  The interpolators in closed form.  The vector of monthly rates
    is the monthly equivalent of each annual rate twelve times over, in
    the order of the curve, cut at the number of months asked for; when
    the curve is too short, the last monthly rate (zero when there is
    none, or when it is zero or NaN) fills the months that are left.
    The default curve is first turned from cumulative to annual
    figures. *)
Theorem interpolation_closed_form (curve : list num) (n : Z) :
  let spread xs :=
    firstn (Z.to_nat n)
      (flat_map (fun a => repeat (monthlyHazard root12 a) 12) xs) in
  let padded body :=
    body ++ repeat (JS.or_else (last body NaN) JS.zero)
              (Z.to_nat n - List.length body) in
  interpolateAnnualCPRToMonthlySMM root12 curve n = padded (spread curve)
  /\ interpolateCumulativeDefaultsToMonthlyPD root12 curve n
     = padded (spread (decumulate None curve)).
Proof.
  cbv zeta.
  unfold interpolateAnnualCPRToMonthlySMM,
    interpolateCumulativeDefaultsToMonthlyPD.
  split; apply fillMonths_closed.
Qed.

End InterpolatorClosedForm.

(* ================================================================== *)
(** ** The ownership helper *)
(* ================================================================== *)

Section Ownership.

Lemma lower_upper (c : ascii) : lowerChar (upperChar c) = lowerChar c.
Proof.
  destruct c as [[] [] [] [] [] [] [] []]; reflexivity.
Qed.

Lemma isSpace_upper (c : ascii) : isSpace (upperChar c) = isSpace c.
Proof.
  destruct c as [[] [] [] [] [] [] [] []]; reflexivity.
Qed.

Lemma trimStart_upper (s : string) :
  trimStart (toUpperCase s) = toUpperCase (trimStart s).
Proof.
  induction s as [|c s IH]; [reflexivity|].
  cbn [toUpperCase mapString trimStart]. rewrite isSpace_upper.
  destruct (isSpace c); [exact IH | reflexivity].
Qed.

Lemma rev_string_upper (s : string) :
  forall acc,
    rev_string (toUpperCase s) (toUpperCase acc)
    = toUpperCase (rev_string s acc).
Proof.
  induction s as [|c s IH]; intros acc; [reflexivity|].
  cbn [toUpperCase mapString rev_string].
  exact (IH (String c acc)).
Qed.

Lemma trim_upper (s : string) : trim (toUpperCase s) = toUpperCase (trim s).
Proof.
  assert (Hrev : forall t,
             rev_string (toUpperCase t) EmptyString
             = toUpperCase (rev_string t EmptyString))
    by (intros t; exact (rev_string_upper t EmptyString)).
  unfold trim.
  now rewrite trimStart_upper, Hrev, trimStart_upper, Hrev.
Qed.

Lemma lower_of_upper (s : string) :
  toLowerCase (toUpperCase s) = toLowerCase s.
Proof.
  induction s as [|c s IH]; [reflexivity|].
  cbn [toUpperCase toLowerCase mapString]. rewrite lower_upper.
  f_equal. exact IH.
Qed.

(** X18.  Ownership is looked up without regard to the case of the user
    name: a name and the same name in capitals own the same share of
    every loan.  (Names are ASCII here; a byte above 127 has no other
    case.) *)
Theorem ownership_ignores_case (l : loan) (user : string) :
  getUserOwnershipPct l (toUpperCase user) = getUserOwnershipPct l user.
Proof.
  unfold getUserOwnershipPct.
  now rewrite trim_upper, lower_of_upper.
Qed.

End Ownership.

(* ================================================================== *)
(** ** Reading a schedule *)
(* ================================================================== *)

Section Queries.

Import LoanQueries.

(** The rows of a schedule, by position. *)
Lemma built_rows (l : loan) (start : monthDate) (rows : list amortRow) :
  parseISODateLocal (loanStartDate l) = Some start ->
  buildAmortSchedule l = Ok rows ->
  forall k r,
    nth_error rows k = Some r ->
    loanDate r = start + Z.of_nat k
    /\ isOwned r = (purchaseMonthOf l start <=? start + Z.of_nat k).
Proof.
  intros Hstart. unfold buildAmortSchedule. rewrite Hstart.
  intros [= <-] k r Hnth.
  destruct (markLast_rows _ k r Hnth) as (r' & Hr' & Hsame).
  destruct (monthLoop_rows l start _ _ _ _ _ _ Hr') as (_ & H2 & _ & H4).
  cbn [initialState st_calendarDate] in *.
  destruct Hsame as [[-> _] | [-> _]]; cbn [setPaidOff loanDate isOwned];
    split; assumption.
Qed.



Lemma year_month_eqb (a b : monthDate) :
  (getFullYear a =? getFullYear b) && (getMonth a =? getMonth b) = (a =? b).
Proof.
  unfold getFullYear, getMonth.
  pose proof (Z.div_mod a 12 ltac:(lia)). pose proof (Z.div_mod b 12 ltac:(lia)).
  destruct (Z.eqb_spec a b) as [-> | Hne].
  - now rewrite !Z.eqb_refl.
  - destruct (Z.eqb_spec (a / 12) (b / 12)) as [Hy | Hy]; [|reflexivity].
    destruct (Z.eqb_spec (a mod 12) (b mod 12)) as [Hm | Hm]; [|reflexivity].
    lia.
Qed.

Section DatedRows.

Variable pm : monthDate.

Lemma dated_tail (base : monthDate) (r0 : amortRow) (rest : list amortRow) :
  dated pm base (r0 :: rest) -> dated pm (base + 1) rest.
Proof.
  intros H k r Hk. destruct (H (S k) r Hk) as [Hd Ho].
  rewrite Hd, Ho. split; [lia | f_equal; lia].
Qed.

Lemma find_dated (today : monthDate) (rows : list amortRow) :
  forall base,
    dated pm base rows -> base <= today -> pm <= today ->
    find (ownedRowOf today) rows
    = nth_error rows (Z.to_nat (today - base)).
Proof.
  induction rows as [|r0 rest IH]; intros base Hrows Hbase Hpm.
  - now destruct (Z.to_nat (today - base)).
  - destruct (Hrows O r0 eq_refl) as [Hd Ho]. rewrite Z.add_0_r in Hd, Ho.
    cbn [find]. unfold ownedRowOf at 1.
    rewrite year_month_eqb, Hd, Ho.
    destruct (Z.eqb_spec base today) as [-> | Hne].
    + replace (pm <=? today) with true by (symmetry; now apply Z.leb_le).
      now rewrite Z.sub_diag.
    + cbn [andb].
      rewrite (IH (base + 1) (dated_tail _ _ _ Hrows) ltac:(lia) Hpm).
      replace (Z.to_nat (today - base))
        with (S (Z.to_nat (today - (base + 1)))) by lia.
      reflexivity.
Qed.

Lemma find_undated (today : monthDate) (rows : list amortRow) :
  forall base,
    dated pm base rows -> today < base \/ today < pm ->
    find (ownedRowOf today) rows = None.
Proof.
  induction rows as [|r0 rest IH]; intros base Hrows Hout; [reflexivity|].
  destruct (Hrows O r0 eq_refl) as [Hd Ho]. rewrite Z.add_0_r in Hd, Ho.
  cbn [find]. unfold ownedRowOf at 1.
  rewrite year_month_eqb, Hd, Ho.
  replace ((base =? today) && (pm <=? base)) with false.
  - apply (IH (base + 1) (dated_tail _ _ _ Hrows)). lia.
  - symmetry. destruct (Z.eqb_spec base today) as [-> | Hne]; [|reflexivity].
    apply Z.leb_gt. lia.
Qed.

Lemma find_late (today : monthDate) (rows : list amortRow) :
  forall base,
    dated pm base rows -> base + Z.of_nat (List.length rows) <= today ->
    find (ownedRowOf today) rows = None.
Proof.
  induction rows as [|r0 rest IH]; intros base Hrows Hout; [reflexivity|].
  destruct (Hrows O r0 eq_refl) as [Hd Ho]. rewrite Z.add_0_r in Hd, Ho.
  cbn [find]. unfold ownedRowOf at 1.
  rewrite year_month_eqb, Hd.
  cbn [List.length] in Hout.
  replace (base =? today) with false by (symmetry; apply Z.eqb_neq; lia).
  apply (IH (base + 1) (dated_tail _ _ _ Hrows)). lia.
Qed.

Lemma last_cons (x d : amortRow) (xs : list amortRow) :
  last (x :: xs) d = last xs x.
Proof.
  revert x d. induction xs as [|y ys IH]; intros x d; [reflexivity|].
  change (last (x :: y :: ys) d) with (last (y :: ys) d).
  now rewrite !IH.
Qed.

Lemma filter_owned_all (rows : list amortRow) :
  forall base,
    dated pm base rows -> pm <= base -> filter isOwned rows = rows.
Proof.
  induction rows as [|r0 rest IH]; intros base Hrows Hpm; [reflexivity|].
  destruct (Hrows O r0 eq_refl) as [_ Ho]. rewrite Z.add_0_r in Ho.
  cbn [filter]. rewrite Ho.
  replace (pm <=? base) with true by (symmetry; now apply Z.leb_le).
  f_equal. apply (IH (base + 1) (dated_tail _ _ _ Hrows)). lia.
Qed.

(** The owned rows are the last ones, so the last owned row, or else
    the last row, is the last row. *)
Lemma last_owned (rows : list amortRow) :
  forall base,
    dated pm base rows ->
    match atLast (filter isOwned rows) with
    | Some r => Some r
    | None => atLast rows
    end = atLast rows.
Proof.
  induction rows as [|r0 rest IH]; intros base Hrows; [reflexivity|].
  destruct (Hrows O r0 eq_refl) as [_ Ho]. rewrite Z.add_0_r in Ho.
  destruct (Z.leb_spec pm base) as [Hle | Hgt].
  - rewrite (filter_owned_all _ base Hrows Hle). reflexivity.
  - cbn [filter]. rewrite Ho.
    specialize (IH (base + 1) (dated_tail _ _ _ Hrows)).
    destruct rest as [|r1 rest']; [reflexivity|].
    assert (Hlast : atLast (r0 :: r1 :: rest') = atLast (r1 :: rest')).
    { unfold atLast. f_equal. apply last_cons. }
    rewrite Hlast. exact IH.
Qed.

End DatedRows.

(** X21.  The current row of a schedule built for the loan.  For a date
    that is neither before the start nor before the purchase and that
    falls inside the schedule, it is the row of that month.  For every
    other date, one before the purchase as much as one after the end,
    it is the last row of the schedule. *)
Theorem current_row_of_a_schedule (l : loan) (start : monthDate)
    (rows : list amortRow) (today : monthDate) :
  parseISODateLocal (loanStartDate l) = Some start ->
  buildAmortSchedule l = Ok rows ->
  let purchase := purchaseMonthOf l start in
  (start <= today -> purchase <= today ->
   today < start + Z.of_nat (List.length rows) ->
   exists r,
     getCanonicalCurrentAmortRow rows today = Some r
     /\ nth_error rows (Z.to_nat (today - start)) = Some r
     /\ loanDate r = today)
  /\ (today < start \/ today < purchase
      \/ start + Z.of_nat (List.length rows) <= today ->
      getCanonicalCurrentAmortRow rows today = atLast rows).
Proof.
  intros Hstart Hbuild purchase.
  assert (Hrows : dated purchase start rows)
    by exact (built_rows l start rows Hstart Hbuild).
  split.
  - intros Hs Hp Hend.
    destruct (nth_error rows (Z.to_nat (today - start))) as [r|] eqn:Hnth.
    2:{ apply nth_error_None in Hnth. lia. }
    exists r. split; [|split; [reflexivity|]].
    + unfold getCanonicalCurrentAmortRow.
      destruct rows as [|r0 rest]; [cbn [List.length] in Hend; lia|].
      now rewrite (find_dated purchase today _ start Hrows Hs Hp), Hnth.
    + destruct (Hrows _ _ Hnth) as [Hd _]. lia.
  - intros Hout.
    unfold getCanonicalCurrentAmortRow.
    destruct rows as [|r0 rest]; [reflexivity|].
    assert (Hnone : find (ownedRowOf today) (r0 :: rest) = None).
    { destruct Hout as [H | [H | H]].
      - apply (find_undated purchase today _ start Hrows). now left.
      - apply (find_undated purchase today _ start Hrows). now right.
      - apply (find_late purchase today _ start Hrows H). }
    rewrite Hnone. exact (last_owned purchase _ start Hrows).
Qed.

Lemma atLast_In (rows : list amortRow) (r : amortRow) :
  atLast rows = Some r -> In r rows.
Proof.
  destruct rows as [|r0 rest]; [discriminate|].
  intros [= <-]. revert r0.
  induction rest as [|r1 rest IH]; intros r0; [now left|].
  right. rewrite last_cons. apply IH.
Qed.

(** The current row is a row of the schedule. *)
Lemma canonical_row_member (schedule : list amortRow) (today : monthDate)
    (r : amortRow) :
  getCanonicalCurrentAmortRow schedule today = Some r -> In r schedule.
Proof.
  unfold getCanonicalCurrentAmortRow.
  destruct schedule as [|r0 rest]; [discriminate|].
  destruct (find (ownedRowOf today) (r0 :: rest)) as [x|] eqn:Hfind.
  - intros [= <-]. now apply find_some in Hfind.
  - destruct (atLast (filter isOwned (r0 :: rest))) as [x|] eqn:Hlast.
    + intros [= <-]. apply atLast_In in Hlast.
      now apply filter_In in Hlast.
    + apply atLast_In.
Qed.

(** X22.  The current balance of a loan that carries the schedule built
    for it is never negative and never NaN, provided the principal is a
    finite number that is not negative and the rate a finite positive
    number. *)
Theorem current_balance_never_negative (l : loan) (P R : Q)
    (rows : list amortRow) (cumSchedule : option (list amortRow))
    (today : monthDate) :
  principal l = Fin P -> (0 <= P)%Q ->
  nominalRate l = Fin R -> (0 < R)%Q ->
  buildAmortSchedule l = Ok rows ->
  (JS.zero <=? getCurrentLoanBalance (Some rows) cumSchedule today)%js = true.
Proof.
  intros HP HP0 HR HR0 Hbuild.
  pose proof (built_balances l P R rows HP HP0 HR HR0 Hbuild) as Hall.
  unfold getCurrentLoanBalance.
  destruct (getCanonicalCurrentAmortRow rows today) as [r|] eqn:Hrow;
    [|reflexivity].
  apply canonical_row_member in Hrow.
  rewrite Forall_forall in Hall. specialize (Hall r Hrow).
  unfold JS.or_else. destruct (JS.truthy (balance r)); [exact Hall|].
  reflexivity.
Qed.

End Queries.

Section Callers.

Import LoanQueries.

Lemma amortSchedule_all (rows : list amortRow) :
  (forall i r,
     nth_error rows i = Some r -> isTerminal r = true ->
     S i = List.length rows) ->
  RoiViews.amortSchedule rows = rows.
Proof.
  induction rows as [|r0 rest IH]; intros Hlast; [reflexivity|].
  cbn [RoiViews.amortSchedule].
  destruct (isTerminal r0) eqn:Ht.
  - specialize (Hlast O r0 eq_refl Ht). cbn [List.length] in Hlast.
    destruct rest; [reflexivity | discriminate].
  - f_equal. apply IH. intros i r Hi Hr.
    specialize (Hlast (S i) r Hi Hr). cbn [List.length] in Hlast. lia.
Qed.

(** X23.  The copy of the schedule that [deriveLoansWithRoi] stops at the
    first terminal row is the whole schedule: [buildAmortSchedule]
    never puts a row after a terminal one, so the truncation drops
    nothing. *)
Theorem roi_schedule_keeps_every_row (l : loan) (rows : list amortRow) :
  buildAmortSchedule l = Ok rows ->
  RoiViews.amortSchedule rows = rows.
Proof.
  unfold buildAmortSchedule.
  destruct (parseISODateLocal (loanStartDate l)) as [start|]; [|discriminate].
  intros [= <-]. apply amortSchedule_all. intros i r Hnth Hterm.
  destruct (markLast_nth _ i r Hnth) as (r' & Hnth' & _ & Ht).
  rewrite markLast_length.
  apply (monthLoop_flagged_last l start (purchaseMonthOf l start) _ _ _ _ _
           Hnth').
  right. now rewrite Ht.
Qed.


End Callers.

(* ================================================================== *)
(** ** The borrower store and the overrides *)
(* ================================================================== *)

Section Stores.

Import BorrowerStore ValuationOverrides.

Local Open Scope string_scope.

Lemma upsert_found (store : list borrower) (b : borrower) :
  forall i idx,
    findIndex (fun x => String.eqb (b_borrowerId x) (b_borrowerId b)) store i
    = Some idx ->
    (i <= idx)%nat
    /\ forall id,
         getBorrowerById (assignAt (idx - i) b store) id
         = if String.eqb (b_borrowerId b) id then Some b
           else getBorrowerById store id.
Proof.
  induction store as [|x rest IH]; intros i idx; cbn [findIndex];
    [discriminate|].
  destruct (String.eqb (b_borrowerId x) (b_borrowerId b)) eqn:Hx.
  - intros [= <-]. split; [lia|]. intros id.
    rewrite Nat.sub_diag. unfold getBorrowerById. cbn [assignAt find].
    apply String.eqb_eq in Hx. rewrite Hx.
    now destruct (String.eqb (b_borrowerId b) id).
  - intros Hrest. destruct (IH _ _ Hrest) as [Hle Hget].
    split; [lia|]. intros id.
    replace (idx - i)%nat with (S (idx - S i)) by lia.
    unfold getBorrowerById in *. cbn [assignAt find].
    destruct (String.eqb (b_borrowerId x) id) eqn:Hid.
    + apply String.eqb_eq in Hid. subst id.
      rewrite String.eqb_sym, Hx. reflexivity.
    + apply Hget.
Qed.

Lemma upsert_missing (store : list borrower) (b : borrower) :
  forall i,
    findIndex (fun x => String.eqb (b_borrowerId x) (b_borrowerId b)) store i
    = None ->
    forall id,
      getBorrowerById (store ++ [b]) id
      = if String.eqb (b_borrowerId b) id then Some b
        else getBorrowerById store id.
Proof.
  induction store as [|x rest IH]; intros i; cbn [findIndex].
  - intros _ id. unfold getBorrowerById. cbn.
    now destruct (String.eqb (b_borrowerId b) id).
  - destruct (String.eqb (b_borrowerId x) (b_borrowerId b)) eqn:Hx;
      [discriminate|].
    intros Hrest id. specialize (IH _ Hrest id).
    unfold getBorrowerById in *. cbn [app find].
    destruct (String.eqb (b_borrowerId x) id) eqn:Hid; [|exact IH].
    apply String.eqb_eq in Hid. subst id.
    rewrite String.eqb_sym, Hx. reflexivity.
Qed.

(** X25.  After [upsertBorrower] the store answers for the identifier of
    the borrower with the borrower just written, and for every other
    identifier as before; a borrower that was not in the store makes it
    longer by one, one that was leaves its length alone. *)
Theorem upsertBorrower_lookup (store : list borrower) (b : borrower) :
  (forall id,
     getBorrowerById (upsertBorrower store b) id
     = if String.eqb (b_borrowerId b) id then Some b
       else getBorrowerById store id)
  /\ List.length (upsertBorrower store b)
     = match getBorrowerById store (b_borrowerId b) with
       | Some _ => List.length store
       | None => S (List.length store)
       end.
Proof.
  unfold upsertBorrower.
  destruct (findIndex _ store 0) as [idx|] eqn:Hidx.
  - destruct (upsert_found store b 0 idx Hidx) as [_ Hget].
    rewrite Nat.sub_0_r in Hget. split; [exact Hget|].
    assert (Hlen : forall (xs : list borrower) i,
               List.length (assignAt i b xs) = List.length xs).
    { induction xs as [|x xs IHx]; intros [|i]; cbn; congruence. }
    rewrite Hlen.
    specialize (Hget (b_borrowerId b)). rewrite String.eqb_refl in Hget.
    assert (Hin : exists x, getBorrowerById store (b_borrowerId b) = Some x).
    { clear Hget. revert Hidx. generalize 0%nat.
      induction store as [|x rest IH]; intros i; cbn [findIndex];
        [discriminate|].
      unfold getBorrowerById. cbn [find].
      destruct (String.eqb (b_borrowerId x) (b_borrowerId b));
        [intros _; eauto | apply IH]. }
    destruct Hin as [x ->]. reflexivity.
  - split; [exact (upsert_missing store b 0 Hidx)|].
    rewrite length_app. cbn [List.length].
    assert (Hnone : getBorrowerById store (b_borrowerId b) = None).
    { revert Hidx. generalize 0%nat.
      induction store as [|x rest IH]; intros i; cbn [findIndex];
        [reflexivity|].
      unfold getBorrowerById. cbn [find].
      destruct (String.eqb (b_borrowerId x) (b_borrowerId b));
        [discriminate | apply IH]. }
    rewrite Hnone. lia.
Qed.

Lemma find_snoc (p : borrower -> bool) (xs : list borrower) (y : borrower) :
  find p (xs ++ [y])
  = match find p xs with
    | Some x => Some x
    | None => if p y then Some y else None
    end.
Proof.
  induction xs as [|x xs IH]; cbn [app find]; [reflexivity|].
  destruct (p x); [reflexivity | exact IH].
Qed.

(** X26.  [ensureBorrowerExists] returns a borrower with the identifier
    asked for, which the store it leaves finds under that identifier;
    it changes no answer the store gave before, and a second call
    returns the same borrower and leaves the store alone.  A borrower
    it had to create has no scores and is rated VERY_HIGH. *)
Theorem ensureBorrowerExists_is_idempotent (store : list borrower)
    (id : string) :
  let b := fst (ensureBorrowerExists store id) in
  let store' := snd (ensureBorrowerExists store id) in
  b_borrowerId b = id
  /\ getBorrowerById store' id = Some b
  /\ (forall id' x,
        getBorrowerById store id' = Some x ->
        getBorrowerById store' id' = Some x)
  /\ ensureBorrowerExists store' id = (b, store')
  /\ (getBorrowerById store id = None ->
      forall a, deriveRiskTier b a = "VERY_HIGH").
Proof.
  cbv zeta. unfold ensureBorrowerExists.
  destruct (getBorrowerById store id) as [b|] eqn:Hget; cbn [fst snd].
  - rewrite Hget. repeat split; try assumption; try discriminate;
      try (intros id' x Hx; exact Hx).
    unfold getBorrowerById in Hget. apply find_some in Hget.
    now apply String.eqb_eq.
  - assert (Hnew : getBorrowerById (store ++ [newBorrower id]) id
                   = Some (newBorrower id)).
    { unfold getBorrowerById in *. rewrite find_snoc, Hget.
      cbn [newBorrower b_borrowerId]. now rewrite String.eqb_refl. }
    rewrite Hnew. repeat split; try assumption.
    intros id' x Hx. unfold getBorrowerById in *.
    now rewrite find_snoc, Hx.
Qed.

Lemma lookup_mapSet (A : Type) (key k : string) (value : A) (m : dict A) :
  lookup k (mapSet key value m)
  = if String.eqb k key then Some value else lookup k m.
Proof.
  induction m as [|[k' v] rest IH]; cbn [mapSet lookup].
  - reflexivity.
  - destruct (String.eqb key k') eqn:Hkey; cbn [lookup].
    + apply String.eqb_eq in Hkey. subst k'.
      now destruct (String.eqb k key).
    + destruct (String.eqb k k') eqn:Hk; [|exact IH].
      apply String.eqb_eq in Hk. subst k'.
      now rewrite String.eqb_sym, Hkey.
Qed.

(** X27.  Overrides accumulate and stay with their loan: after
    [setOverride] the effective borrower of the loan named is the
    effective borrower it had before with the new fields spread over
    it, and the effective borrower of every other loan is what it
    was. *)
Theorem setOverride_accumulates (ctx : context) (id : string)
    (partial : borrower -> borrower) (l : loan) (systemBorrower : borrower) :
  getEffectiveBorrower
    (withOverrides ctx (setOverride (VALUATION_OVERRIDES ctx) id partial))
    l systemBorrower
  = if String.eqb (loanId l) id
    then partial (getEffectiveBorrower ctx l systemBorrower)
    else getEffectiveBorrower ctx l systemBorrower.
Proof.
  unfold getEffectiveBorrower, setOverride.
  cbn [withOverrides VALUATION_OVERRIDES].
  rewrite lookup_mapSet.
  destruct (String.eqb (loanId l) id) eqn:Hid; [|reflexivity].
  apply String.eqb_eq in Hid. rewrite Hid.
  now destruct (lookup id (VALUATION_OVERRIDES ctx)).
Qed.

End Stores.


(** The theorem on the same loan: June is the sixth row, and a date
    before the purchase gives the last row. *)
Lemma current_row_of_a_schedule_witness :
  exists rows,
    buildAmortSchedule Cases.boughtInMarch = Ok rows
    /\ (exists r,
          LoanQueries.getCanonicalCurrentAmortRow rows (12 * 2024 + 5) = Some r
          /\ nth_error rows (Z.to_nat (12 * 2024 + 5 - 12 * 2024)) = Some r
          /\ loanDate r = 12 * 2024 + 5)
    /\ LoanQueries.getCanonicalCurrentAmortRow rows (12 * 2024 + 1)
       = LoanQueries.atLast rows.
Proof.
  eexists.
  assert (Hb : buildAmortSchedule Cases.boughtInMarch = Ok _)
    by (vm_compute; reflexivity).
  split; [exact Hb|]. split.
  - apply (current_row_of_a_schedule Cases.boughtInMarch (12 * 2024) _
             (12 * 2024 + 5) eq_refl Hb);
      vm_compute; try reflexivity; discriminate.
  - apply (current_row_of_a_schedule Cases.boughtInMarch (12 * 2024) _
             (12 * 2024 + 1) eq_refl Hb).
    right. left. vm_compute. reflexivity.
Defined.

(** The theorem on the loan with a deferral and a prepayment larger
    than the balance, read in March 2024. *)
Lemma current_balance_never_negative_witness :
  exists rows,
    buildAmortSchedule Sample.deferredAndPrepaid = Ok rows
    /\ (JS.zero
        <=? LoanQueries.getCurrentLoanBalance (Some rows) None
              (12 * 2024 + 2)%Z)%js
       = true.
Proof.
  eexists.
  assert (Hb : buildAmortSchedule Sample.deferredAndPrepaid = Ok _)
    by (vm_compute; reflexivity).
  assert (Hpos : (0 <= 1000)%Q) by discriminate.
  split; [exact Hb|].
  exact (current_balance_never_negative Sample.deferredAndPrepaid
           1000 (12 # 100) _ None (12 * 2024 + 2) eq_refl Hpos eq_refl eq_refl
           Hb).
Defined.

(** The theorem on the one-year loan, whose last row is terminal. *)
Lemma roi_schedule_keeps_every_row_witness :
  exists rows,
    buildAmortSchedule Cases.boughtInMarch = Ok rows
    /\ RoiViews.amortSchedule rows = rows.
Proof.
  eexists.
  assert (Hb : buildAmortSchedule Cases.boughtInMarch = Ok _)
    by (vm_compute; reflexivity).
  split; [exact Hb|].
  exact (roi_schedule_keeps_every_row Cases.boughtInMarch _ Hb).
Defined.

(* ================================================================== *)
(** ** Returns on investment *)
(* ================================================================== *)

Section WeightedRoi.

Import RoiViews.

Local Open Scope Q_scope.

Variables lo hi : Q.
Variable m : monthDate.





End WeightedRoi.

Section LatestEntry.

Import RoiViews.

Lemma insertEntry_In (e x : roiEntry) (xs : list roiEntry) :
  In x (insertEntry e xs) <-> x = e \/ In x xs.
Proof.
  induction xs as [|y ys IH]; cbn [insertEntry].
  - cbn. intuition congruence.
  - destruct (dateOf e <=? dateOf y).
    + cbn. intuition congruence.
    + cbn [In]. rewrite IH. intuition congruence.
Qed.

Lemma sortByDate_In (x : roiEntry) (xs : list roiEntry) :
  In x (sortByDate xs) <-> In x xs.
Proof.
  induction xs as [|y ys IH]; cbn [sortByDate fold_right]; [reflexivity|].
  fold (sortByDate ys). rewrite insertEntry_In, IH. cbn. intuition congruence.
Qed.

Lemma insertEntry_ascending (e : roiEntry) (xs : list roiEntry) :
  ascending xs -> ascending (insertEntry e xs).
Proof.
  induction xs as [|y ys IH]; cbn [insertEntry ascending].
  - intros _. split; [constructor | exact I].
  - intros [Hy Hys]. destruct (Z.leb_spec (dateOf e) (dateOf y)) as [Hle | Hgt].
    + cbn [ascending]. split; [|split; assumption].
      constructor; [exact Hle|].
      apply Forall_forall. intros z Hz.
      rewrite Forall_forall in Hy. specialize (Hy z Hz). lia.
    + cbn [ascending]. split; [|now apply IH].
      apply Forall_forall. intros z Hz. apply insertEntry_In in Hz.
      destruct Hz as [-> | Hz]; [lia|].
      rewrite Forall_forall in Hy. now apply Hy.
Qed.

Lemma sortByDate_ascending (xs : list roiEntry) : ascending (sortByDate xs).
Proof.
  induction xs as [|y ys IH]; cbn [sortByDate fold_right]; [exact I|].
  now apply insertEntry_ascending.
Qed.

Lemma ascending_before (pre post : list roiEntry) (e : roiEntry) :
  ascending (pre ++ e :: post) ->
  forall x, In x pre -> dateOf x <= dateOf e.
Proof.
  induction pre as [|y pre IH]; intros Hasc x Hx; [destruct Hx|].
  cbn [app ascending] in Hasc. destruct Hasc as [Hy Hrest].
  destruct Hx as [<- | Hx]; [|now apply IH].
  rewrite Forall_forall in Hy. apply Hy.
  apply in_or_app. right. now left.
Qed.

(** The scan from the end of a list stops at its last element that
    passes the test. *)
Lemma find_rev_split (p : roiEntry -> bool) (xs : list roiEntry)
    (e : roiEntry) :
  find p (rev xs) = Some e ->
  exists pre post,
    xs = pre ++ e :: post
    /\ p e = true
    /\ Forall (fun y => p y = false) post.
Proof.
  induction xs as [|y ys IH] using rev_ind; [discriminate|].
  rewrite rev_app_distr. cbn [rev app find].
  destruct (p y) eqn:Hy.
  - intros [= <-]. exists ys, []. repeat split; [exact Hy | constructor].
  - intros Hfind. destruct (IH Hfind) as (pre & post & -> & He & Hpost).
    exists pre, (post ++ [y]). rewrite <- app_assoc. split; [reflexivity|].
    split; [exact He|].
    apply Forall_app. split; [exact Hpost|]. constructor; [exact Hy|].
    constructor.
Qed.

Lemma validEntries_In (x : roiEntry) (series : list roiEntry) :
  In x (validEntries series)
  <-> In x series /\ exists d, entry_date x = Some d.
Proof.
  unfold validEntries. rewrite filter_In.
  destruct (entry_date x) as [d|].
  - split; [intros [H _]; eauto | tauto].
  - split; [intros [_ H]; discriminate | intros [_ [d H]]; discriminate].
Qed.

(** X29.  The entry of a loan as of a month is the latest one: when the
    series has an entry dated in the month or before it, the entry
    returned is an entry of the series, it is dated in the month or
    before it, and no entry of the series is dated after it without
    being dated after the month; when the series has no such entry,
    the placeholder with a return of zero is returned. *)
Theorem roi_entry_is_the_latest (l : roiLoan) (id : string)
    (series : list roiEntry) (m : monthDate) :
  rl_id l = Some id ->
  rl_roiSeries l = Some series ->
  let e := getRoiEntryAsOfMonth l (Some m) in
  ((exists x d, In x series /\ entry_date x = Some d /\ d <= m) ->
   In e series
   /\ exists de,
        entry_date e = Some de /\ de <= m
        /\ forall x d,
             In x series -> entry_date x = Some d -> d <= m -> d <= de)
  /\ ((forall x d, In x series -> entry_date x = Some d -> m < d) ->
      e = placeholder (JS.or_else (rl_invested l) JS.zero)).
Proof.
  intros Hid Hseries. cbv zeta. unfold getRoiEntryAsOfMonth.
  rewrite Hid, Hseries.
  set (sorted := sortByDate (validEntries series)).
  assert (Hin : forall x,
             In x sorted <-> In x series /\ exists d, entry_date x = Some d).
  { intros x. unfold sorted. now rewrite sortByDate_In, validEntries_In. }
  split.
  - intros (x & d & Hx & Hd & Hle).
    assert (Hxs : In x sorted) by (apply Hin; eauto).
    destruct sorted as [|s0 rest] eqn:Hsorted; [destruct Hxs|].
    rewrite <- Hsorted in *.
    destruct (find (fun e => dateOf e <=? m) (rev sorted)) as [e|] eqn:Hfind.
    + destruct (find_rev_split _ _ _ Hfind) as (pre & post & Hsplit & He & Hpost).
      assert (Hes : In e sorted).
      { rewrite Hsplit. apply in_or_app. right. now left. }
      apply Hin in Hes. destruct Hes as [Hes [de Hde]].
      split; [exact Hes|]. exists de. split; [exact Hde|].
      apply Z.leb_le in He. unfold dateOf in He. rewrite Hde in He.
      cbn [nullish] in He. split; [exact He|].
      intros y dy Hy Hdy Hym.
      assert (Hys : In y sorted) by (apply Hin; eauto).
      rewrite Hsplit in Hys. apply in_app_or in Hys.
      pose proof (sortByDate_ascending (validEntries series)) as Hasc.
      fold sorted in Hasc. rewrite Hsplit in Hasc.
      destruct Hys as [Hys | [<- | Hys]].
      * pose proof (ascending_before pre post e Hasc y Hys) as Hye.
        unfold dateOf in Hye. rewrite Hdy, Hde in Hye. exact Hye.
      * rewrite Hde in Hdy. injection Hdy as <-. lia.
      * rewrite Forall_forall in Hpost. specialize (Hpost y Hys).
        apply Z.leb_gt in Hpost. unfold dateOf in Hpost.
        rewrite Hdy in Hpost. cbn [nullish] in Hpost. lia.
    + exfalso. apply in_rev in Hxs.
      pose proof (find_none _ _ Hfind x Hxs) as Hf. cbn beta in Hf.
      apply Z.leb_gt in Hf. unfold dateOf in Hf. rewrite Hd in Hf.
      cbn [nullish] in Hf. lia.
  - intros Hlate.
    destruct sorted as [|s0 rest] eqn:Hsorted; [reflexivity|].
    rewrite <- Hsorted in *.
    destruct (find (fun e => dateOf e <=? m) (rev sorted)) as [e|] eqn:Hfind;
      [|reflexivity].
    exfalso. apply find_some in Hfind. destruct Hfind as [Hes He].
    apply in_rev in Hes. apply Hin in Hes. destruct Hes as [Hes [de Hde]].
    specialize (Hlate e de Hes Hde).
    apply Z.leb_le in He. unfold dateOf in He. rewrite Hde in He.
    cbn [nullish] in He. lia.
Qed.

End LatestEntry.


(** The theorem on the second loan in March 2024: the entry of
    February is returned, not the one of April that comes first in the
    series. *)
Lemma roi_entry_is_the_latest_witness :
  let series :=
    [{| RoiViews.entry_date := Some (12 * 2024 + 3);
        RoiViews.entry_roi := Fin (3 # 10);
        RoiViews.entry_invested := Fin 3000 |};
     {| RoiViews.entry_date := Some (12 * 2024);
        RoiViews.entry_roi := Fin (1 # 10);
        RoiViews.entry_invested := Fin 3000 |};
     {| RoiViews.entry_date := Some (12 * 2024 + 1);
        RoiViews.entry_roi := Fin (2 # 10);
        RoiViews.entry_invested := Fin 3000 |}] in
  let e := RoiViews.getRoiEntryAsOfMonth Cases.growing (Some Cases.march2024) in
  ((exists x d,
       In x series /\ RoiViews.entry_date x = Some d /\ d <= Cases.march2024) ->
   In e series
   /\ exists de,
        RoiViews.entry_date e = Some de /\ de <= Cases.march2024
        /\ forall x d,
             In x series -> RoiViews.entry_date x = Some d ->
             d <= Cases.march2024 -> d <= de)
  /\ ((forall x d,
         In x series -> RoiViews.entry_date x = Some d -> Cases.march2024 < d) ->
      e = RoiViews.placeholder
            (JS.or_else (RoiViews.rl_invested Cases.growing) JS.zero)).
Proof.
  exact (roi_entry_is_the_latest Cases.growing "L-2" _ Cases.march2024
           eq_refl eq_refl).
Defined.
